(** * aavegotchi-gen: the avatar endpoint of [src/api/index.ts]

    A shallow embedding of the TypeScript handler and of the helpers it
    declares ([SeededRandom], [generateSeed], [random], [drawPattern],
    [handler]), followed by the properties of the design document that
    concern them.

    JavaScript values are modelled as the code has them:
    - a [number] is an IEEE 754 binary64 value, here [spec_float] of the
      Standard Library with the operations instantiated at precision 53,
      so [*], [/], [+] and [-] round exactly as the engine does;
    - the operands of the bitwise operators go through [ToInt32];
    - a string is its sequence of UTF-16 code units. *)

From Stdlib Require Import ZArith List Bool Lia Znumtheory String Ascii.
From Stdlib Require Import Floats.SpecFloat.
Import ListNotations.
Local Open Scope Z_scope.

(** ** JavaScript numbers *)

Module Num.

Definition prec : Z := 53.
Definition emax : Z := 1024.

Definition number : Type := spec_float.

Definition add : number -> number -> number := SFadd prec emax.
Definition sub : number -> number -> number := SFsub prec emax.
Definition mul : number -> number -> number := SFmul prec emax.
Definition div : number -> number -> number := SFdiv prec emax.

(** The number denoted by an integer literal or held by an integer-valued
    expression: the nearest binary64 value, exact up to [2^53]. *)
Definition ofZ (z : Z) : number := binary_normalize prec emax z 0 false.

(** A decimal literal [n / 10^k] such as [1.35]: numerator and
    denominator are exact and the quotient is rounded once, to nearest
    even, which is how the literal is read. *)
Definition decimal (n d : Z) : number := div (ofZ n) (ofZ d).

Definition zero : number := S754_zero false.
Definition one : number := ofZ 1.

(** [Number.MAX_SAFE_INTEGER]. *)
Definition MAX_SAFE_INTEGER : Z := 2 ^ 53 - 1.

(** [===] on numbers: [NaN] differs from everything, [+0 === -0]. *)
Definition strict_eq : number -> number -> bool := SFeqb.
Definition ltb : number -> number -> bool := SFltb.
Definition leb : number -> number -> bool := SFleb.

(** [Math.floor]: NaN, the infinities, the zeros and the values without
    fractional bits are returned unchanged; otherwise the fractional bits
    of the mantissa are dropped, towards minus infinity. *)
Definition floor (x : number) : number :=
  match x with
  | S754_finite s m e =>
      if 0 <=? e then x
      else
        let q := Z.shiftr (Zpos m) (- e) in
        if s then
          (if Z.shiftl q (- e) =? Zpos m then ofZ (- q) else ofZ (- (q + 1)))
        else ofZ q
  | _ => x
  end.

(** The integer an integer-valued number stands for ([None] for NaN, the
    infinities and numbers with a fractional part); used where the code
    indexes an array. *)
Definition toZ (x : number) : option Z :=
  match x with
  | S754_zero _ => Some 0
  | S754_finite s m e =>
      if 0 <=? e then Some (cond_Zopp s (Z.shiftl (Zpos m) e))
      else
        let q := Z.shiftr (Zpos m) (- e) in
        if Z.shiftl q (- e) =? Zpos m then Some (cond_Zopp s q) else None
  | _ => None
  end.

End Num.

(** ** 32-bit bitwise operators *)

Module Int32.

(** [ToInt32] on an integer-valued number. *)
Definition toInt32 (z : Z) : Z :=
  let w := z mod 2 ^ 32 in
  if w <? 2 ^ 31 then w else w - 2 ^ 32.

(** [a << k], [a >> k] and [a ^ b] for a shift count [k] below 32. *)
Definition shl (a k : Z) : Z := toInt32 (Z.shiftl (toInt32 a) k).
Definition sar (a k : Z) : Z := Z.shiftr (toInt32 a) k.
Definition xor (a b : Z) : Z := toInt32 (Z.lxor (toInt32 a) (toInt32 b)).

End Int32.

(** ** class SeededRandom *)

Module SeededRandom.

(** The object's only field, [seed], holds an integer; it is the state
    threaded through the calls. *)
Definition state : Type := Z.

Definition xorshift (seed : state) : state :=
  let seed := Int32.xor seed (Int32.shl seed 13) in
  let seed := Int32.xor seed (Int32.sar seed 17) in
  let seed := Int32.xor seed (Int32.shl seed 5) in
  seed.

(** [next()]: the new state and the returned number. *)
Definition next (seed : state) : state * Num.number :=
  let seed := xorshift seed in
  (seed, Num.div (Num.ofZ (Z.abs (Z.rem seed 1000))) (Num.ofZ 1000)).

(** [nextRange(min, max)]. *)
Definition nextRange (min max : Num.number) (seed : state)
  : state * Num.number :=
  let (seed, r) := next seed in
  (seed,
   Num.add (Num.floor (Num.mul r (Num.add (Num.sub max min) Num.one))) min).

End SeededRandom.


(** ** Strings *)

Module JSString.

(** A string value: its UTF-16 code units. *)
Definition jsstring : Type := list Z.

(** An ASCII literal of the source. *)
Definition lit (s : string) : jsstring :=
  map (fun a => Z.of_N (N_of_ascii a)) (list_ascii_of_string s).

(** A string is falsy exactly when it is empty. *)
Definition truthy (s : jsstring) : bool :=
  match s with [] => false | _ :: _ => true end.

Definition is_high_surrogate (c : Z) : bool := (55296 <=? c) && (c <=? 56319).
Definition is_low_surrogate (c : Z) : bool := (56320 <=? c) && (c <=? 57343).

Definition encode_code_point (cp : Z) : list Z :=
  if cp <? 128 then [cp]
  else if cp <? 2048 then [192 + cp / 64; 128 + cp mod 64]
  else if cp <? 65536 then
    [224 + cp / 4096; 128 + (cp / 64) mod 64; 128 + cp mod 64]
  else
    [240 + cp / 262144; 128 + (cp / 4096) mod 64;
     128 + (cp / 64) mod 64; 128 + cp mod 64].

(** U+FFFD, which stands for a surrogate without its partner. *)
Definition replacement : list Z := [239; 191; 189].

(** The UTF-8 bytes of a string, as [hash.update(input)] reads them. *)
Fixpoint utf8 (s : jsstring) : list Z :=
  match s with
  | [] => []
  | c :: rest =>
      if is_high_surrogate c then
        match rest with
        | c2 :: rest' =>
            if is_low_surrogate c2 then
              encode_code_point
                (65536 + (c - 55296) * 1024 + (c2 - 56320)) ++ utf8 rest'
            else replacement ++ utf8 rest
        | [] => replacement
        end
      else if is_low_surrogate c then replacement ++ utf8 rest
      else encode_code_point c ++ utf8 rest
  end.

(** [s.slice(0, n)] for [0 <= n]. *)
Definition slice0 (n : nat) (s : jsstring) : jsstring := firstn n s.

Definition is_white_space (c : Z) : bool :=
  ((9 <=? c) && (c <=? 13)) || (c =? 32) || (c =? 160) || (c =? 5760)
  || ((8192 <=? c) && (c <=? 8202)) || (c =? 8232) || (c =? 8233)
  || (c =? 8239) || (c =? 8287) || (c =? 12288) || (c =? 65279).

Fixpoint trim_start (s : jsstring) : jsstring :=
  match s with
  | c :: rest => if is_white_space c then trim_start rest else s
  | [] => []
  end.

(** The value of a code unit as a digit in radix 16. *)
Definition hex_digit_value (c : Z) : option Z :=
  if (48 <=? c) && (c <=? 57) then Some (c - 48)
  else if (97 <=? c) && (c <=? 102) then Some (c - 87)
  else if (65 <=? c) && (c <=? 70) then Some (c - 55)
  else None.

(** The digits of the longest prefix that is a numeral in radix 16. *)
Fixpoint hex_prefix (s : jsstring) : list Z :=
  match s with
  | c :: rest =>
      match hex_digit_value c with
      | Some d => d :: hex_prefix rest
      | None => []
      end
  | [] => []
  end.

Definition hex_value (ds : list Z) : Z :=
  fold_left (fun acc d => acc * 16 + d) ds 0.

(** [parseInt(s, 16)]: leading white space, a sign and a [0x] prefix are
    skipped, then the longest run of hexadecimal digits is read; the
    result is [NaN] when that run is empty. *)
Definition parseInt16 (s : jsstring) : Num.number :=
  let s := trim_start s in
  let '(negative, s) :=
    match s with
    | c :: rest =>
        if c =? 45 then (true, rest)
        else if c =? 43 then (false, rest)
        else (false, s)
    | [] => (false, s)
    end in
  let s :=
    match s with
    | c1 :: c2 :: rest =>
        if (c1 =? 48) && ((c2 =? 120) || (c2 =? 88)) then rest else s
    | _ => s
    end in
  match hex_prefix s with
  | [] => S754_nan
  | ds =>
      let v := hex_value ds in
      if v =? 0 then S754_zero negative
      else Num.ofZ (if negative then - v else v)
  end.

End JSString.

(** ** createHash("sha256") *)

Module Sha256.

Definition u32 (x : Z) : Z := x mod 2 ^ 32.
Definition rotr (n x : Z) : Z :=
  Z.lor (Z.shiftr x n) (u32 (Z.shiftl x (32 - n))).
Definition Ch (x y z : Z) : Z :=
  Z.lxor (Z.land x y) (Z.land (Z.lnot x) z).
Definition Maj (x y z : Z) : Z :=
  Z.lxor (Z.lxor (Z.land x y) (Z.land x z)) (Z.land y z).
Definition Sigma0 (x : Z) : Z :=
  Z.lxor (Z.lxor (rotr 2 x) (rotr 13 x)) (rotr 22 x).
Definition Sigma1 (x : Z) : Z :=
  Z.lxor (Z.lxor (rotr 6 x) (rotr 11 x)) (rotr 25 x).
Definition sigma0 (x : Z) : Z :=
  Z.lxor (Z.lxor (rotr 7 x) (rotr 18 x)) (Z.shiftr x 3).
Definition sigma1 (x : Z) : Z :=
  Z.lxor (Z.lxor (rotr 17 x) (rotr 19 x)) (Z.shiftr x 10).

(** The constants of FIPS 180-4: the first 32 bits of the fractional parts
    of the cube roots of the first 64 primes, and of the square roots of
    the first 8. *)
Definition is_prime (p : Z) : bool :=
  (2 <=? p)
  && forallb (fun d => negb (p mod d =? 0))
       (map Z.of_nat (seq 2 (Z.to_nat p - 2))).

Definition primes (n : nat) : list Z :=
  firstn n (filter is_prime (map Z.of_nat (seq 2 400))).

(** The integer cube root, found bit by bit from bit [n - 1] down. *)
Fixpoint cbrt_bits (n : nat) (v r : Z) : Z :=
  match n with
  | O => r
  | S n' =>
      let c := r + 2 ^ Z.of_nat n' in
      if c * c * c <=? v then cbrt_bits n' v c else cbrt_bits n' v r
  end.

Definition K : list Z :=
  Eval vm_compute in
    map (fun p => u32 (cbrt_bits 40 (p * 2 ^ 96) 0)) (primes 64).

Record regs : Type :=
  Regs { ra : Z; rb : Z; rc : Z; rd : Z; re : Z; rf : Z; rg : Z; rh : Z }.

Definition H0 : regs :=
  Eval vm_compute in
    match map (fun p => u32 (Z.sqrt (p * 2 ^ 64))) (primes 8) with
    | [a; b; c; d; e; f; g; h] => Regs a b c d e f g h
    | _ => Regs 0 0 0 0 0 0 0 0
    end.

Definition be64 (n : Z) : list Z :=
  map (fun i => (n / 2 ^ (8 * i)) mod 256) [7; 6; 5; 4; 3; 2; 1; 0].

(** The message, a [1] bit, zeros up to 56 modulo 64 bytes, and the bit
    length on 8 bytes. *)
Definition pad (msg : list Z) : list Z :=
  let len := Z.of_nat (List.length msg) in
  msg ++ [128] ++ repeat 0 (Z.to_nat ((55 - len) mod 64)) ++ be64 (8 * len).

Fixpoint be_words (l : list Z) : list Z :=
  match l with
  | a :: b :: c :: d :: rest =>
      (a * 2 ^ 24 + b * 2 ^ 16 + c * 2 ^ 8 + d) :: be_words rest
  | _ => []
  end.

(** The message schedule, most recent word first. *)
Fixpoint extend (n : nat) (w : list Z) : list Z :=
  match n with
  | O => w
  | S n' =>
      extend n'
        (u32 (sigma1 (nth 1 w 0) + nth 6 w 0 + sigma0 (nth 14 w 0) + nth 15 w 0)
         :: w)
  end.

Definition schedule (block : list Z) : list Z :=
  rev (extend 48 (rev (be_words block))).

Definition round (r : regs) (kw : Z * Z) : regs :=
  let '(k, w) := kw in
  let t1 := rh r + Sigma1 (re r) + Ch (re r) (rf r) (rg r) + k + w in
  let t2 := Sigma0 (ra r) + Maj (ra r) (rb r) (rc r) in
  Regs (u32 (t1 + t2)) (ra r) (rb r) (rc r) (u32 (rd r + t1)) (re r) (rf r) (rg r).

Definition compress (h : regs) (block : list Z) : regs :=
  let r := fold_left round (combine K (schedule block)) h in
  Regs (u32 (ra h + ra r)) (u32 (rb h + rb r)) (u32 (rc h + rc r))
       (u32 (rd h + rd r)) (u32 (re h + re r)) (u32 (rf h + rf r))
       (u32 (rg h + rg r)) (u32 (rh h + rh r)).

Fixpoint blocks (n : nat) (l : list Z) : list (list Z) :=
  match n with
  | O => []
  | S n' => firstn 64 l :: blocks n' (skipn 64 l)
  end.

Definition be32 (w : Z) : list Z :=
  [(w / 2 ^ 24) mod 256; (w / 2 ^ 16) mod 256; (w / 2 ^ 8) mod 256; w mod 256].

(** [createHash("sha256").update(bytes).digest()]: the 32 digest bytes. *)
Definition digest (msg : list Z) : list Z :=
  let p := pad msg in
  let h := fold_left compress (blocks (List.length p / 64) p) H0 in
  be32 (ra h) ++ be32 (rb h) ++ be32 (rc h) ++ be32 (rd h)
  ++ be32 (re h) ++ be32 (rf h) ++ be32 (rg h) ++ be32 (rh h).

Definition hex_char (d : Z) : Z := if d <? 10 then 48 + d else 87 + d.

(** [digest("hex")]: two lowercase hexadecimal digits per byte. *)
Definition hex (bytes : list Z) : JSString.jsstring :=
  flat_map (fun b => [hex_char (b / 16); hex_char (b mod 16)]) bytes.

End Sha256.

(** ** generateSeed *)

(** [data] is an optional parameter: [None] is [undefined]. *)
Definition generateSeed
  (address : JSString.jsstring) (data : option JSString.jsstring)
  : Num.number :=
  let input :=
    match data with
    | Some d =>
        if JSString.truthy d then address ++ JSString.lit "-" ++ d else address
    | None => address
    end in
  let hash := Sha256.hex (Sha256.digest (JSString.utf8 input)) in
  JSString.parseInt16 (JSString.slice0 8 hash).


(** ** The drawing surface and the response *)

(** The 2D context is modelled by the calls made on it, in order: what the
    canvas holds, and hence what [toBuffer] encodes, is a function of that
    sequence. *)

Record Gradient : Type :=
  { gx0 : Num.number; gy0 : Num.number; gx1 : Num.number; gy1 : Num.number;
    stops : list (Num.number * string) }.

(** A value assigned to [fillStyle]: a colour string ([None] when the array
    lookup that produced it was out of bounds) or a gradient. *)
Inductive FillStyle : Type :=
| Color (c : option string)
| Gradient_ (g : Gradient).

Section Surface.

Variable Image : Type.

Inductive CanvasCall : Type :=
| SetFillStyle (s : FillStyle)
| FillRect (x y w h : Num.number)
| BeginPath
| MoveTo (x y : Num.number)
| LineTo (x y : Num.number)
| ClosePath
| Fill
| Save
| Translate (x y : Num.number)
| SetShadowColor (c : string)
| SetShadowBlur (b : Num.number)
| DrawImage (img : Image) (dx dy dw dh : Num.number)
| Restore.

Record Canvas : Type :=
  { width : Num.number; height : Num.number; calls : list CanvasCall }.

Definition createCanvas (w h : Z) : Canvas :=
  {| width := Num.ofZ w; height := Num.ofZ h; calls := [] |}.

Definition draw (c : Canvas) (cs : list CanvasCall) : Canvas :=
  {| width := width c; height := height c; calls := calls c ++ cs |}.

End Surface.

Arguments SetFillStyle {Image}.
Arguments FillRect {Image}.
Arguments BeginPath {Image}.
Arguments MoveTo {Image}.
Arguments LineTo {Image}.
Arguments ClosePath {Image}.
Arguments Fill {Image}.
Arguments Save {Image}.
Arguments Translate {Image}.
Arguments SetShadowColor {Image}.
Arguments SetShadowBlur {Image}.
Arguments DrawImage {Image}.
Arguments Restore {Image}.
Arguments width {Image}.
Arguments height {Image}.
Arguments calls {Image}.
Arguments draw {Image}.

(** [a[i]] for a number [i]: [None] is [undefined]. *)
Definition index {A : Type} (a : list A) (i : Num.number) : option A :=
  match Num.toZ i with
  | Some z => if 0 <=? z then nth_error a (Z.to_nat z) else None
  | None => None
  end.

(** [a.length]. *)
Definition length_ {A : Type} (a : list A) : Num.number :=
  Num.ofZ (Z.of_nat (List.length a)).

(** ** random and drawPattern *)

Record Settings : Type :=
  { gridSize : Z; boxSize : Z; colors : list string; offsets : list Num.number }.

Definition settings : Settings :=
  {| gridSize := 10;
     boxSize := 40;
     colors := ["#FFE8FF"; "#FFIDFF"; "#44106C"; "#1A0335"; "#672EEB"]%string;
     offsets := [Num.decimal 125 100; Num.decimal 135 100; Num.decimal 1425 1000;
                 Num.decimal 15 10; Num.decimal 16 10; Num.ofZ 2] |}.

(** The constants of one iteration of the inner loop. *)
Record Cell : Type :=
  { bgColorIndex : Num.number;
    elementColorIndex : Num.number;
    x : Num.number;
    y : Num.number;
    offset : Num.number }.

(** A [for] loop whose counter runs over [n] consecutive integers from [i];
    the body may fail to return. *)
Fixpoint forLoop {St : Type} (n : nat) (i : Z) (body : Z -> St -> option St)
  (s : St) : option St :=
  match n with
  | O => Some s
  | S n' =>
      match body i s with
      | Some s' => forLoop n' (i + 1) body s'
      | None => None
      end
  end.

Section Pattern.

(** [Math.random()] is not seeded by the program: the number its [n]-th call
    returns is an input. The count of calls made so far is threaded through
    the code that draws from it. *)
Variable Math_random : nat -> Num.number.

Definition random (min max : Num.number) (n : nat) : Num.number * nat :=
  (Num.add
     (Num.floor (Num.mul (Math_random n) (Num.add (Num.sub max min) Num.one)))
     min,
   S n).

(** The [while] loop of [drawPattern]; [fuel] bounds the number of times its
    body runs, and [None] means the loop is still running after that many. *)
Fixpoint pickElementColor
  (fuel : nat) (st : Settings) (bgColorIndex elementColorIndex : Num.number)
  (n : nat) : option (Num.number * nat) :=
  if Num.strict_eq elementColorIndex bgColorIndex then
    match fuel with
    | O => None
    | S fuel' =>
        let '(elementColorIndex, n) :=
          random Num.zero (Num.sub (length_ (colors st)) Num.one) n in
        pickElementColor fuel' st bgColorIndex elementColorIndex n
    end
  else Some (elementColorIndex, n).

(** Lines 49 to 59: the constants of the cell at grid position [(i, j)]. *)
Definition chooseCell (fuel : nat) (st : Settings) (i j : Z) (n : nat)
  : option (Cell * nat) :=
  let '(bg, n) :=
    random Num.zero (Num.sub (length_ (colors st)) Num.one) n in
  let '(el, n) :=
    random Num.zero (Num.sub (length_ (colors st)) Num.one) n in
  match pickElementColor fuel st bg el n with
  | None => None
  | Some (el, n) =>
      let x := Num.ofZ (Z.rem (i * boxSize st) 400) in
      let y := Num.ofZ (Z.rem (j * boxSize st) 400) in
      let '(oi, n) :=
        random Num.zero (Num.sub (length_ (offsets st)) Num.one) n in
      let offset :=
        match index (offsets st) oi with
        | Some o => Num.div (Num.ofZ (boxSize st)) o
        | None => S754_nan
        end in
      Some ({| bgColorIndex := bg; elementColorIndex := el;
               x := x; y := y; offset := offset |}, n)
  end.

(** Lines 61 to 77: the calls that draw a cell. *)
Definition paintCell {Image : Type} (st : Settings) (c : Cell)
  : list (CanvasCall Image) :=
  let box := Num.ofZ (boxSize st) in
  let x := x c in
  let y := y c in
  let offset := offset c in
  [ SetFillStyle (Color (index (colors st) (bgColorIndex c)));
    FillRect x y box box;
    SetFillStyle (Color (index (colors st) (elementColorIndex c)));
    BeginPath;
    MoveTo (Num.add x offset) y;
    LineTo (Num.sub (Num.add x box) offset) y;
    LineTo (Num.add x box) (Num.add y offset);
    LineTo (Num.add x box) (Num.sub (Num.add y box) offset);
    LineTo (Num.sub (Num.add x box) offset) (Num.add y box);
    LineTo (Num.add x offset) (Num.add y box);
    LineTo x (Num.sub (Num.add y box) offset);
    LineTo x (Num.add y offset);
    ClosePath;
    Fill ].

(** What [drawPattern] has done so far: the cells chosen, the canvas, and
    the number of calls made to [Math.random]. *)
Record Drawing (Image : Type) : Type :=
  { cells : list Cell; canvas : Canvas Image; drawn : nat }.

Arguments cells {Image}.
Arguments canvas {Image}.
Arguments drawn {Image}.

Definition drawCell {Image : Type} (fuel : nat) (st : Settings) (i j : Z)
  (d : Drawing Image) : option (Drawing Image) :=
  match chooseCell fuel st i j (drawn d) with
  | None => None
  | Some (c, n) =>
      Some {| cells := cells d ++ [c];
              canvas := draw (canvas d) (paintCell st c);
              drawn := n |}
  end.

Definition drawPatternWith {Image : Type} (fuel : nat) (st : Settings)
  (d : Drawing Image) : option (Drawing Image) :=
  forLoop (Z.to_nat (gridSize st)) 0
    (fun i => forLoop (Z.to_nat (gridSize st)) 0 (fun j => drawCell fuel st i j))
    d.

(** [drawPattern(canvas)], with the constants of the source. *)
Definition drawPattern {Image : Type} (fuel : nat) (c : Canvas Image) (n : nat)
  : option (Drawing Image) :=
  drawPatternWith fuel settings {| cells := []; canvas := c; drawn := n |}.


(** The number the [k]-th further call of [random(0, colors.length - 1)]
    returns, counting from call [n]. *)
Definition attempt (st : Settings) (n k : nat) : Num.number :=
  fst (random Num.zero (Num.sub (length_ (colors st)) Num.one) (n + k)).

End Pattern.

Arguments cells {Image}.
Arguments canvas {Image}.
Arguments drawn {Image}.

(** ** handler *)

(** [req.query], typed as [BaseParams] by the source: [None] is a parameter
    that is absent. *)
Record Query : Type :=
  { address : option JSString.jsstring; data : option JSString.jsstring }.

(** [!address]. *)
Definition falsy (a : option JSString.jsstring) : bool :=
  match a with
  | Some a => negb (JSString.truthy a)
  | None => true
  end.

Section Handler.

(** The decoded watermark, the encoded image and the value thrown by a
    failed [loadImage] are left abstract, and so is the PNG encoder. *)
Variables Image Buffer Error : Type.
Variable toBuffer : Canvas Image -> Buffer.

(** The calls made on [res]. *)
Inductive ResCall : Type :=
| Status (code : Z)
| Json (payload : list (string * string))
| SetHeader (name value : string)
| Send (body : Buffer).

(** Everything a run of the handler does that can be observed. *)
Record Outcome : Type :=
  { response : list ResCall;
    surface : option (Canvas Image);
    randomCalls : nat;
    imageRequested : bool;
    consoleErrors : list Error }.

Definition imageUrl : string :=
  "https://blog.aavegotchi.com/content/images/2023/07/fulllogo.png".

(** The answer to a request without [address]. *)
Definition badRequest : Outcome :=
  {| response :=
       [Status 400;
        Json [("error", "Valid Ethereum address is required")]%string];
     surface := None;
     randomCalls := 0;
     imageRequested := false;
     consoleErrors := [] |}.

(** [handler(req, res)]. [Math_random] gives the numbers [Math.random]
    returns during the request and [loadImage] the result of fetching and
    decoding the watermark, should the handler ask for it: the image, or
    the value thrown. The result is [None] when the pattern is still being
    drawn after [fuel] rounds of its inner [while] loop. *)
Definition handler
  (Math_random : nat -> Num.number) (loadImage : string -> Error + Image)
  (fuel : nat) (query : Query) : option Outcome :=
  if falsy (address query) then Some badRequest
  else
    let address := match address query with Some a => a | None => [] end in
    let seed := generateSeed address None in
    let canvas0 := createCanvas Image 400 400 in
    match drawPattern Math_random fuel canvas0 0 with
    | None => None
    | Some d =>
        let ctx := canvas d in
        let gradient :=
          {| gx0 := Num.ofZ 0; gy0 := Num.ofZ 0;
             gx1 := Num.ofZ 0; gy1 := height ctx;
             stops := [(Num.ofZ 0, "rgba(54, 54, 54, 0.37)");
                       (Num.decimal 7 10, "rgba(0, 0, 0, 0.67)");
                       (Num.ofZ 1, "rgb(0, 0, 0)")]%string |} in
        let ctx :=
          draw ctx
            [SetFillStyle (Gradient_ gradient);
             FillRect (Num.ofZ 0) (Num.ofZ 0) (width ctx) (height ctx)] in
        match loadImage imageUrl with
        | inl error =>
            Some {| response :=
                      [Status 500;
                       Json [("error", "Internal server error")]%string];
                    surface := Some ctx;
                    randomCalls := drawn d;
                    imageRequested := true;
                    consoleErrors := [error] |}
        | inr baseImage =>
            let scaledWidth := Num.ofZ 300 in
            let scaledHeight := Num.ofZ 180 in
            let baseX :=
              Num.div (Num.sub (width ctx) scaledWidth) (Num.ofZ 2) in
            let baseY := Num.sub (height ctx) scaledHeight in
            let ctx :=
              draw ctx
                [Save;
                 Translate
                   (Num.add baseX (Num.div scaledWidth (Num.ofZ 2)))
                   (Num.add baseY (Num.div scaledHeight (Num.ofZ 2)));
                 SetShadowColor "rgb(0, 0, 0)";
                 SetShadowBlur (Num.ofZ 60);
                 DrawImage baseImage
                   (Num.div (SFopp scaledWidth) (Num.ofZ 2))
                   (Num.div (SFopp scaledHeight) (Num.ofZ 2))
                   scaledWidth scaledHeight;
                 Restore] in
            let buffer := toBuffer ctx in
            Some {| response :=
                      [SetHeader "Content-Type" "image/png"; Send buffer];
                    surface := Some ctx;
                    randomCalls := drawn d;
                    imageRequested := true;
                    consoleErrors := [] |}
        end
    end.

End Handler.

Arguments Status {Buffer}.
Arguments Json {Buffer}.
Arguments SetHeader {Buffer}.
Arguments Send {Buffer}.
Arguments response {Image Buffer Error}.
Arguments surface {Image Buffer Error}.
Arguments randomCalls {Image Buffer Error}.
Arguments imageRequested {Image Buffer Error}.
Arguments consoleErrors {Image Buffer Error}.
Arguments badRequest {Image Buffer Error}.
Arguments handler {Image Buffer Error}.

(** ** Vocabulary of the statements *)

Definition in_unit_interval (x : Num.number) : bool :=
  Num.leb Num.zero x && Num.ltb x Num.one.

Module NumSpec.
Import Num.

(** The binary64 representation of a positive integer below [2^53]: the
    53-bit mantissa is the integer shifted left to its top bit. *)
Definition canon (s : bool) (v : positive) : number :=
  let d := Zpos (digits2_pos v) in
  S754_finite s (Z.to_pos (Zpos v * 2 ^ (53 - d))) (d - 53).


(** What [Math.random] may return: a number of positive sign, at least
    [+0] and less than [1]. *)
Definition is_unit_fraction (u : number) : bool :=
  match u with
  | S754_zero false => true
  | S754_finite false m e => bounded prec emax m e && ltb u one
  | _ => false
  end.

End NumSpec.

(** What the proof about [parseInt16] needs of a hexadecimal digit. *)
Definition hex_char_ok (d : Z) : bool :=
  negb (JSString.is_white_space (Sha256.hex_char d))
  && negb (Sha256.hex_char d =? 45) && negb (Sha256.hex_char d =? 43)
  && negb (Sha256.hex_char d =? 120) && negb (Sha256.hex_char d =? 88)
  && match JSString.hex_digit_value (Sha256.hex_char d) with
     | Some d' => d' =? d
     | None => false
     end.

(** The string that is hashed. *)
Definition seed_input
  (address : JSString.jsstring) (data : option JSString.jsstring)
  : JSString.jsstring :=
  match data with
  | Some (c :: d) => address ++ JSString.lit "-" ++ c :: d
  | _ => address
  end.


(** Two sample random sources: the numbers [0.1, 0.9, 0.1, ...] and
    [0.9, 0.1, 0.9, ...], and one that returns [0] at every call. *)
Definition sourceA (n : nat) : Num.number :=
  if Nat.even n then Num.decimal 1 10 else Num.decimal 9 10.
Definition sourceB (n : nat) : Num.number :=
  if Nat.even n then Num.decimal 9 10 else Num.decimal 1 10.
Definition sourceZero (n : nat) : Num.number := Num.zero.

(** A sample request, an encoder that keeps the calls made on the canvas,
    and the two results of fetching the watermark. *)
Definition sampleQuery : Query :=
  {| address := Some (JSString.lit "0xabc"); data := None |}.
Definition otherQuery : Query :=
  {| address := Some (JSString.lit "0xdef");
     data := Some (JSString.lit "xyz") |}.
Definition sampleEncoder (c : Canvas unit) : list (CanvasCall unit) := calls c.
Definition loadOk (url : string) : string + unit := inr tt.
Definition loadFails (url : string) : string + unit :=
  inl "fetch failed"%string.

(** The bodies passed to [res.send] during a run, and the first call
    recorded in the only body sent, if any. *)
Definition sent {Image Buffer Error : Type}
  (o : option (Outcome Image Buffer Error)) : list Buffer :=
  match o with
  | Some o =>
      flat_map (fun r => match r with Send body => [body] | _ => [] end)
        (response o)
  | None => []
  end.

Definition firstCallSent {Image Error : Type}
  (o : option (Outcome Image (list (CanvasCall unit)) Error))
  : option (CanvasCall unit) :=
  match sent o with
  | [body] => hd_error body
  | _ => None
  end.

Definition random_source_ok (Math_random : nat -> Num.number) : Prop :=
  forall n, NumSpec.is_unit_fraction (Math_random n) = true.

Definition palette_cell (c : Cell) : Prop :=
  exists bg fg,
    index (colors settings) (bgColorIndex c) = Some bg /\
    index (colors settings) (elementColorIndex c) = Some fg /\
    bg <> fg /\
    In (offset c)
       (map (Num.div (Num.ofZ (boxSize settings))) (offsets settings)).

Definition small_index_ok (b : Z) : bool :=
  match Num.toZ (Num.ofZ b) with
  | Some z => z =? b
  | None => false
  end
  && forallb (fun e => Bool.eqb (Num.strict_eq (Num.ofZ b) (Num.ofZ e)) (b =? e))
       (map Z.of_nat (seq 0 6)).

(** The integers [i, i + 1, ..., i + n - 1]. *)
Fixpoint zrange (n : nat) (i : Z) : list Z :=
  match n with
  | O => []
  | S n' => i :: zrange n' (i + 1)
  end.

Definition origin (c : Cell) : Num.number * Num.number := (x c, y c).

(** The points named by a call that draws. *)
Definition points {Image : Type} (call : CanvasCall Image)
  : list (Num.number * Num.number) :=
  match call with
  | MoveTo x y => [(x, y)]
  | LineTo x y => [(x, y)]
  | FillRect x y w h => [(x, y); (Num.add x w, Num.add y h)]
  | _ => []
  end.

(** [lo <= p <= hi], coordinate by coordinate. *)
Definition within (lo hi p : Num.number * Num.number) : bool :=
  Num.leb (fst lo) (fst p) && Num.leb (fst p) (fst hi)
  && Num.leb (snd lo) (snd p) && Num.leb (snd p) (snd hi).

(** The tile of a cell: its origin and the opposite corner. *)
Definition tile (c : Cell) : (Num.number * Num.number) * (Num.number * Num.number) :=
  ((x c, y c),
   (Num.add (x c) (Num.ofZ (boxSize settings)),
    Num.add (y c) (Num.ofZ (boxSize settings)))).

Definition tile_in_canvas (c : Cell) : bool :=
  within (Num.zero, Num.zero) (Num.ofZ 400, Num.ofZ 400) (fst (tile c))
  && within (Num.zero, Num.zero) (Num.ofZ 400, Num.ofZ 400) (snd (tile c)).

Definition drawn_within_tile (Image : Type) (c : Cell) : bool :=
  forallb (within (fst (tile c)) (snd (tile c)))
    (flat_map points (@paintCell Image settings c)).

Definition placed (i j : Z) (o : Num.number) : Cell :=
  {| bgColorIndex := Num.zero; elementColorIndex := Num.zero;
     x := Num.ofZ (Z.rem (i * boxSize settings) 400);
     y := Num.ofZ (Z.rem (j * boxSize settings) 400);
     offset := Num.div (Num.ofZ (boxSize settings)) o |}.

Definition placed_ok (i : Z) : bool :=
  forallb
    (fun j =>
       forallb
         (fun o => tile_in_canvas (placed i j o)
                   && drawn_within_tile unit (placed i j o))
         (offsets settings))
    (map Z.of_nat (seq 0 10)).

Definition cell_in_tile (Image : Type) (c : Cell) : Prop :=
  tile_in_canvas c = true /\ drawn_within_tile Image c = true.

(** The gradient laid over the pattern and the six calls that draw the
    watermark, with the numbers the handler computes. *)
Definition overlay : Gradient :=
  {| gx0 := Num.ofZ 0; gy0 := Num.ofZ 0; gx1 := Num.ofZ 0; gy1 := Num.ofZ 400;
     stops := [(Num.ofZ 0, "rgba(54, 54, 54, 0.37)");
               (Num.decimal 7 10, "rgba(0, 0, 0, 0.67)");
               (Num.ofZ 1, "rgb(0, 0, 0)")]%string |}.

Definition finishing {Image : Type} (baseImage : Image) : list (CanvasCall Image) :=
  [SetFillStyle (Gradient_ overlay);
   FillRect (Num.ofZ 0) (Num.ofZ 0) (Num.ofZ 400) (Num.ofZ 400);
   Save;
   Translate (Num.ofZ 200) (Num.ofZ 310);
   SetShadowColor "rgb(0, 0, 0)";
   SetShadowBlur (Num.ofZ 60);
   DrawImage baseImage (Num.ofZ (- 150)) (Num.ofZ (- 90))
     (Num.ofZ 300) (Num.ofZ 180);
   Restore].

(** The numbers returned by [n] successive calls of [next()]. *)
Fixpoint outputs (n : nat) (seed : SeededRandom.state) : list Num.number :=
  match n with
  | O => []
  | S n' =>
      let '(seed, r) := SeededRandom.next seed in
      r :: outputs n' seed
  end.

(** * Properties *)

(** ** Auxiliary facts: ranges checked by evaluation *)

Lemma forallb_Z_range (P : Z -> bool) (n : nat) :
  forallb P (map Z.of_nat (seq 0 n)) = true ->
  forall k, 0 <= k < Z.of_nat n -> P k = true.
Proof.
  intros H k Hk.
  rewrite forallb_forall in H. apply H.
  apply in_map_iff. exists (Z.to_nat k). split; [lia|].
  apply in_seq. lia.
Qed.

Lemma abs_rem_1000 (z : Z) : 0 <= Z.abs (Z.rem z 1000) < 1000.
Proof.
  pose proof (Z.rem_bound_abs z 1000 ltac:(lia)). lia.
Qed.

(** ** ToInt32 and the bitwise operators, bit by bit *)

Module Int32Facts.
Import Int32.

Lemma toInt32_range (z : Z) : - 2 ^ 31 <= toInt32 z < 2 ^ 31.
Proof.
  unfold toInt32.
  pose proof (Z.mod_pos_bound z (2 ^ 32) ltac:(lia)).
  destruct (Z.ltb_spec (z mod 2 ^ 32) (2 ^ 31)); lia.
Qed.

Lemma toInt32_id (z : Z) : - 2 ^ 31 <= z < 2 ^ 31 -> toInt32 z = z.
Proof.
  intros Hz. unfold toInt32.
  destruct (Z.ltb_spec (z mod 2 ^ 32) (2 ^ 31)) as [H|H].
  - destruct (Z_lt_le_dec z 0) as [Hn|Hp].
    + rewrite <- (Z.mod_add z 1 (2 ^ 32)) in H by lia.
      rewrite Z.mod_small in H by lia. lia.
    + apply Z.mod_small. lia.
  - destruct (Z_lt_le_dec z 0) as [Hn|Hp].
    + rewrite <- (Z.mod_add z 1 (2 ^ 32)) by lia.
      rewrite Z.mod_small by lia. lia.
    + rewrite Z.mod_small in H by lia. lia.
Qed.

Lemma toInt32_mod (z : Z) : toInt32 z mod 2 ^ 32 = z mod 2 ^ 32.
Proof.
  unfold toInt32.
  destruct (Z.ltb_spec (z mod 2 ^ 32) (2 ^ 31)).
  - apply Z.mod_mod. lia.
  - replace (z mod 2 ^ 32 - 2 ^ 32) with (z mod 2 ^ 32 + (-1) * 2 ^ 32) by lia.
    rewrite Z.mod_add by lia. apply Z.mod_mod. lia.
Qed.

Lemma toInt32_testbit (z i : Z) :
  0 <= i < 32 -> Z.testbit (toInt32 z) i = Z.testbit z i.
Proof.
  intros Hi.
  rewrite <- (Z.mod_pow2_bits_low (toInt32 z) 32 i) by lia.
  rewrite toInt32_mod. apply Z.mod_pow2_bits_low. lia.
Qed.

(** Above bit 31 a 32-bit signed integer repeats its sign bit. *)
Lemma int32_sign_bits (x j : Z) :
  - 2 ^ 31 <= x < 2 ^ 31 -> 31 <= j -> Z.testbit x j = Z.testbit x 31.
Proof.
  intros Hx Hj.
  destruct (Z_lt_le_dec x 0) as [Hn|Hp].
  - assert (Hb : forall k, 31 <= k -> Z.testbit x k = true).
    { intros k Hk. apply Z.bits_above_log2_neg; [lia|].
      destruct (Z.eq_dec x (-1)) as [->|Hx1]; [simpl; lia|].
      apply Z.lt_le_trans with 31; [|lia].
      apply Z.log2_lt_pow2; lia. }
    rewrite (Hb j), (Hb 31); auto; lia.
  - assert (Hb : forall k, 31 <= k -> Z.testbit x k = false).
    { intros k Hk. destruct (Z.eq_dec x 0) as [->|Hx0]; [apply Z.bits_0|].
      apply Z.bits_above_log2; [lia|].
      apply Z.lt_le_trans with 31; [|lia].
      apply Z.log2_lt_pow2; lia. }
    rewrite (Hb j), (Hb 31); auto; lia.
Qed.

Lemma xor_testbit (a b i : Z) :
  0 <= i < 32 ->
  Z.testbit (xor a b) i = xorb (Z.testbit a i) (Z.testbit b i).
Proof.
  intros Hi. unfold xor.
  rewrite toInt32_testbit, Z.lxor_spec, !toInt32_testbit by lia.
  reflexivity.
Qed.

Lemma shl_testbit (a k i : Z) :
  0 <= k -> 0 <= i < 32 ->
  Z.testbit (shl a k) i = if i <? k then false else Z.testbit a (i - k).
Proof.
  intros Hk Hi. unfold shl.
  rewrite toInt32_testbit, Z.shiftl_spec by lia.
  destruct (Z.ltb_spec i k).
  - apply Z.testbit_neg_r. lia.
  - apply toInt32_testbit. lia.
Qed.

Lemma sar_range (a k : Z) : 0 <= k -> - 2 ^ 31 <= sar a k < 2 ^ 31.
Proof.
  intros Hk. unfold sar. pose proof (toInt32_range a) as Ha.
  rewrite Z.shiftr_div_pow2 by lia.
  assert (0 < 2 ^ k) by (apply Z.pow_pos_nonneg; lia).
  split.
  - apply Z.div_le_lower_bound; nia.
  - apply Z.div_lt_upper_bound; nia.
Qed.

Lemma sar_testbit (a k i : Z) :
  0 <= k -> 0 <= i < 32 ->
  Z.testbit (sar a k) i = Z.testbit a (Z.min (i + k) 31).
Proof.
  intros Hk Hi. unfold sar. rewrite Z.shiftr_spec by lia.
  destruct (Z_lt_le_dec (i + k) 31).
  - rewrite Z.min_l by lia. apply toInt32_testbit. lia.
  - rewrite Z.min_r by lia.
    rewrite (int32_sign_bits (toInt32 a) (i + k)) by (auto using toInt32_range; lia).
    apply toInt32_testbit. lia.
Qed.

End Int32Facts.

(** ** SeededRandom.next *)


Lemma thousandths_in_unit_interval :
  forallb (fun k => in_unit_interval (Num.div (Num.ofZ k) (Num.ofZ 1000)))
          (map Z.of_nat (seq 0 1000)) = true.
Proof. vm_compute. reflexivity. Qed.

Lemma in_unit_interval_spec (x : Num.number) :
  in_unit_interval x = true ->
  Num.leb Num.zero x = true /\ Num.ltb x Num.one = true.
Proof.
  unfold in_unit_interval. intros H. apply andb_true_iff in H. exact H.
Qed.

Lemma thousandth_in_unit_interval (k : Z) :
  0 <= k < 1000 ->
  Num.leb Num.zero (Num.div (Num.ofZ k) (Num.ofZ 1000)) = true /\
  Num.ltb (Num.div (Num.ofZ k) (Num.ofZ 1000)) Num.one = true.
Proof.
  intros Hk. apply in_unit_interval_spec.
  exact (forallb_Z_range _ 1000 thousandths_in_unit_interval k Hk).
Qed.

Lemma next_eq (seed : SeededRandom.state) :
  SeededRandom.next seed
  = (SeededRandom.xorshift seed,
     Num.div (Num.ofZ (Z.abs (Z.rem (SeededRandom.xorshift seed) 1000)))
             (Num.ofZ 1000)).
Proof. reflexivity. Qed.

(** C7. For every state, [next] replaces the state by its xorshift image
    under the 32-bit signed operators: the three steps are characterised
    bit by bit ([<< 13] feeds in zeros, [>> 17] repeats the sign bit, [<< 5]
    feeds in zeros), every intermediate value and the new state are 32-bit
    signed integers, and the
    returned number is the binary64 quotient of [abs (state rem 1000)] by
    [1000], which lies in [0, 1). *)
Theorem next_xorshift_unit_interval (seed : SeededRandom.state) :
  exists s1 s2 s3 : Z,
    (forall i, 0 <= i < 32 ->
       Z.testbit s1 i
       = xorb (Z.testbit seed i)
              (if i <? 13 then false else Z.testbit seed (i - 13))) /\
    (forall i, 0 <= i < 32 ->
       Z.testbit s2 i
       = xorb (Z.testbit s1 i) (Z.testbit s1 (Z.min (i + 17) 31))) /\
    (forall i, 0 <= i < 32 ->
       Z.testbit s3 i
       = xorb (Z.testbit s2 i)
              (if i <? 5 then false else Z.testbit s2 (i - 5))) /\
    - 2 ^ 31 <= s1 < 2 ^ 31 /\
    - 2 ^ 31 <= s2 < 2 ^ 31 /\
    - 2 ^ 31 <= s3 < 2 ^ 31 /\
    SeededRandom.next seed
    = (s3, Num.div (Num.ofZ (Z.abs (Z.rem s3 1000))) (Num.ofZ 1000)) /\
    0 <= Z.abs (Z.rem s3 1000) < 1000 /\
    Num.leb Num.zero (snd (SeededRandom.next seed)) = true /\
    Num.ltb (snd (SeededRandom.next seed)) Num.one = true.
Proof.
  exists (Int32.xor seed (Int32.shl seed 13)),
         (Int32.xor (Int32.xor seed (Int32.shl seed 13))
                    (Int32.sar (Int32.xor seed (Int32.shl seed 13)) 17)),
         (SeededRandom.xorshift seed).
  destruct (thousandth_in_unit_interval _
              (abs_rem_1000 (SeededRandom.xorshift seed))) as [Hlo Hhi].
  split; [|split; [|split; [|split; [|split; [|split; [|split; [|split; [|split]]]]]]]].
  - intros i Hi.
    rewrite Int32Facts.xor_testbit, Int32Facts.shl_testbit by lia. reflexivity.
  - intros i Hi.
    rewrite Int32Facts.xor_testbit, Int32Facts.sar_testbit by lia. reflexivity.
  - intros i Hi. unfold SeededRandom.xorshift.
    rewrite Int32Facts.xor_testbit, Int32Facts.shl_testbit by lia. reflexivity.
  - apply Int32Facts.toInt32_range.
  - apply Int32Facts.toInt32_range.
  - apply Int32Facts.toInt32_range.
  - apply next_eq.
  - apply abs_rem_1000.
  - rewrite next_eq. exact Hlo.
  - rewrite next_eq. exact Hhi.
Qed.

(** ** Binary64 arithmetic on integers below [2^53] *)

Module NumFacts.
Import Num NumSpec.

Lemma digits_bounds (p : positive) :
  2 ^ (Zpos (digits2_pos p) - 1) <= Zpos p < 2 ^ Zpos (digits2_pos p).
Proof.
  induction p as [p IH|p IH|]; cbn [digits2_pos].
  - rewrite Pos2Z.inj_succ.
    replace (Z.succ (Zpos (digits2_pos p)) - 1) with (Z.succ (Zpos (digits2_pos p) - 1)) by lia.
    rewrite !Z.pow_succ_r by lia. lia.
  - rewrite Pos2Z.inj_succ.
    replace (Z.succ (Zpos (digits2_pos p)) - 1) with (Z.succ (Zpos (digits2_pos p) - 1)) by lia.
    rewrite !Z.pow_succ_r by lia. lia.
  - simpl. lia.
Qed.

Lemma digits_unique (p : positive) (d : Z) :
  2 ^ (d - 1) <= Zpos p < 2 ^ d -> Zpos (digits2_pos p) = d.
Proof.
  intros [Hlo Hhi]. pose proof (digits_bounds p) as [Hlo' Hhi'].
  assert (0 < d).
  { destruct (Z_lt_le_dec 0 d); [assumption|].
    destruct (Z.eq_dec d 0) as [->|]; [simpl in Hhi; lia|].
    rewrite Z.pow_neg_r in Hhi by lia. lia. }
  assert (d - 1 < Zpos (digits2_pos p)).
  { apply (Z.pow_lt_mono_r_iff 2); lia. }
  assert (Zpos (digits2_pos p) - 1 < d).
  { apply (Z.pow_lt_mono_r_iff 2); lia. }
  lia.
Qed.

Lemma digits_shift (p q : positive) (j : Z) :
  0 <= j -> Zpos q = Zpos p * 2 ^ j ->
  Zpos (digits2_pos q) = Zpos (digits2_pos p) + j.
Proof.
  intros Hj Hq. apply digits_unique. rewrite Hq.
  pose proof (digits_bounds p) as [Hlo Hhi].
  replace (Zpos (digits2_pos p) + j - 1) with (Zpos (digits2_pos p) - 1 + j) by lia.
  assert (0 < 2 ^ j) by (apply Z.pow_pos_nonneg; lia).
  rewrite !Z.pow_add_r by lia. nia.
Qed.

Lemma iter_pos_nat {A : Type} (f : A -> A) (p : positive) (x : A) :
  iter_pos f p x = Nat.iter (Pos.to_nat p) f x.
Proof.
  revert x. induction p as [p IH|p IH|]; intros x; cbn [iter_pos].
  - rewrite !IH, Pos2Nat.inj_xI.
    replace (S (2 * Pos.to_nat p)) with (Pos.to_nat p + (Pos.to_nat p + 1))%nat by lia.
    rewrite !Nat.iter_add. reflexivity.
  - rewrite !IH, Pos2Nat.inj_xO.
    replace (2 * Pos.to_nat p)%nat with (Pos.to_nat p + Pos.to_nat p)%nat by lia.
    rewrite Nat.iter_add. reflexivity.
  - reflexivity.
Qed.

Lemma pos_iter_xO (m d : positive) :
  Zpos (Pos.iter xO m d) = Zpos m * 2 ^ Zpos d.
Proof.
  pattern d. apply Pos.peano_ind.
  - simpl. lia.
  - intros p IH. rewrite Pos.iter_succ, Pos2Z.inj_succ, Z.pow_succ_r by lia.
    rewrite Pos2Z.inj_xO, IH. lia.
Qed.

(** One step of the right shift: halve, remember the bit shifted out. *)
Lemma shr_1_spec (m : Z) (r s : bool) :
  0 <= m ->
  shr_1 (Build_shr_record m r s)
  = Build_shr_record (Z.div2 m) (Z.odd m) (r || s).
Proof.
  intros Hm. destruct m as [|[p|p|]|p]; try reflexivity; lia.
Qed.

Lemma shr_iter_m (n : nat) (mrs : shr_record) :
  0 <= shr_m mrs ->
  shr_m (Nat.iter n shr_1 mrs) = shr_m mrs / 2 ^ Z.of_nat n.
Proof.
  intros Hm. induction n as [|n IH].
  - simpl. rewrite Z.div_1_r. reflexivity.
  - rewrite Nat.iter_succ.
    destruct (Nat.iter n shr_1 mrs) as [m r s] eqn:E. cbn [shr_m] in IH.
    assert (0 <= m).
    { rewrite IH. apply Z.div_pos; [assumption|]. apply Z.pow_pos_nonneg; lia. }
    rewrite shr_1_spec by assumption. cbn [shr_m].
    rewrite Z.div2_div, IH, Z.div_div, Nat2Z.inj_succ, Z.pow_succ_r by
      (try apply Z.pow_pos_nonneg; lia).
    f_equal. lia.
Qed.

Lemma shr_iter_exact (n : nat) (q : Z) :
  0 <= q ->
  Nat.iter n shr_1 (Build_shr_record (q * 2 ^ Z.of_nat n) false false)
  = Build_shr_record q false false.
Proof.
  intros Hq. revert q Hq. induction n as [|n IH]; intros q Hq.
  - simpl. f_equal. lia.
  - rewrite Nat.iter_succ, <- Nat.iter_swap.
    rewrite Nat2Z.inj_succ, Z.pow_succ_r by lia.
    assert (0 < 2 ^ Z.of_nat n) by (apply Z.pow_pos_nonneg; lia).
    rewrite shr_1_spec by nia.
    replace (q * (2 * 2 ^ Z.of_nat n)) with (2 * (q * 2 ^ Z.of_nat n)) by lia.
    rewrite Z.div2_div, Z.odd_mul, Z.mul_comm, Z.div_mul by lia.
    simpl. apply IH. assumption.
Qed.

Lemma shr_exact (q e k : Z) :
  0 <= k -> 0 <= q ->
  shr (Build_shr_record (q * 2 ^ k) false false) e k
  = (Build_shr_record q false false, e + k).
Proof.
  intros Hk Hq. destruct k as [|p|p]; [| |lia].
  - simpl. rewrite Z.mul_1_r, Z.add_0_r. reflexivity.
  - cbn [shr]. rewrite iter_pos_nat.
    rewrite <- (positive_nat_Z p) at 1.
    rewrite shr_iter_exact by assumption. reflexivity.
Qed.

Lemma shr_floor (m e k : Z) (r s : bool) :
  0 <= k -> 0 <= m ->
  shr_m (fst (shr (Build_shr_record m r s) e k)) = m / 2 ^ k /\
  snd (shr (Build_shr_record m r s) e k) = e + k.
Proof.
  intros Hk Hm. destruct k as [|p|p]; [| |lia].
  - simpl. rewrite Z.div_1_r, Z.add_0_r. auto.
  - cbn [shr fst snd]. rewrite iter_pos_nat, shr_iter_m by assumption.
    rewrite positive_nat_Z. auto.
Qed.

Lemma fexp_normal (e : Z) : - 1021 <= e -> fexp prec emax e = e - 53.
Proof.
  intros He. unfold fexp, emin, prec, emax. lia.
Qed.

(** Rounding a mantissa whose low [k] bits are zero and whose remaining
    53 bits fit the format is exact. *)
Lemma round_aux_exact (s : bool) (M q : positive) (e k : Z) :
  0 <= k -> Zpos M = Zpos q * 2 ^ k -> Zpos (digits2_pos q) = 53 ->
  - 1074 <= e + k <= 971 ->
  binary_round_aux prec emax s (Zpos M) e loc_Exact = S754_finite s q (e + k).
Proof.
  intros Hk HM Hq He.
  assert (HdM : Zpos (digits2_pos M) = 53 + k).
  { rewrite (digits_shift q M k Hk HM). lia. }
  unfold binary_round_aux, shr_fexp. cbn [Zdigits2 shr_record_of_loc].
  rewrite HdM, fexp_normal by lia.
  replace (53 + k + e - 53 - e) with k by lia.
  rewrite HM, shr_exact by lia.
  cbn [shr_m loc_of_shr_record round_nearest_even Zdigits2 shr_record_of_loc].
  rewrite Hq, fexp_normal by lia.
  replace (53 + (e + k) - 53 - (e + k)) with 0 by lia.
  cbn [shr shr_m].
  replace (e + k <=? emax - prec) with true; [reflexivity|].
  symmetry. apply Z.leb_le. unfold emax, prec. lia.
Qed.


Lemma canon_mantissa (v : positive) :
  Zpos v < 2 ^ 53 ->
  let d := Zpos (digits2_pos v) in
  1 <= d <= 53 /\
  Zpos (Z.to_pos (Zpos v * 2 ^ (53 - d))) = Zpos v * 2 ^ (53 - d) /\
  Zpos (digits2_pos (Z.to_pos (Zpos v * 2 ^ (53 - d)))) = 53.
Proof.
  intros Hv d. pose proof (digits_bounds v) as [Hlo Hhi]. fold d in Hlo, Hhi.
  assert (Hd : 1 <= d <= 53).
  { split; [unfold d; lia|].
    destruct (Z_lt_le_dec 53 d) as [Hgt|]; [|lia].
    assert (2 ^ 53 <= 2 ^ (d - 1)) by (apply Z.pow_le_mono_r; lia). lia. }
  assert (Hp : 0 < 2 ^ (53 - d)) by (apply Z.pow_pos_nonneg; lia).
  assert (Hm : Zpos (Z.to_pos (Zpos v * 2 ^ (53 - d))) = Zpos v * 2 ^ (53 - d)).
  { apply Z2Pos.id. nia. }
  split; [exact Hd|]. split; [exact Hm|].
  rewrite (digits_shift v _ (53 - d)); [fold d; lia|lia|exact Hm].
Qed.

Lemma binary_round_int (s : bool) (m v : positive) (j : Z) :
  0 <= j -> Zpos m = Zpos v * 2 ^ j -> Zpos v < 2 ^ 53 ->
  binary_round prec emax s m (- j) = canon s v.
Proof.
  intros Hj Hm Hv.
  destruct (canon_mantissa v Hv) as (Hd & Hc & Hdc).
  unfold canon. set (d := Zpos (digits2_pos v)) in *.
  set (c := Z.to_pos (Zpos v * 2 ^ (53 - d))) in *.
  unfold binary_round.
  rewrite (digits_shift v m j Hj Hm). fold d.
  replace (d + j + - j) with d by lia.
  rewrite fexp_normal by lia.
  unfold shl_align.
  destruct (d - 53 - - j) as [|t|t] eqn:Et.
  - replace (d - 53) with (- j + 0) by lia.
    apply round_aux_exact; try lia.
    rewrite Hm, Hc. replace (53 - d) with j by lia. lia.
  - replace (d - 53) with (- j + Zpos t) by lia.
    apply round_aux_exact; try lia.
    rewrite Hm, Hc. replace j with (53 - d + Zpos t) at 1 by lia.
    rewrite Z.pow_add_r by lia. lia.
  - replace (d - 53) with (d - 53 + 0) at 2 by lia.
    replace (Pos.iter xO m t) with c.
    + apply round_aux_exact; try lia.
    + apply Pos2Z.inj. rewrite pos_iter_xO, Hc, Hm.
      replace (53 - d) with (j + Zpos t) by lia.
      rewrite Z.pow_add_r by lia. lia.
Qed.

Lemma ofZ_pos (v : positive) : Zpos v < 2 ^ 53 -> ofZ (Zpos v) = canon false v.
Proof.
  intros Hv. unfold ofZ, binary_normalize.
  apply (binary_round_int false v v 0); lia.
Qed.

Lemma ofZ_neg (v : positive) : Zpos v < 2 ^ 53 -> ofZ (Zneg v) = canon true v.
Proof.
  intros Hv. unfold ofZ, binary_normalize.
  apply (binary_round_int true v v 0); lia.
Qed.

(** Normalising an integer given with [j] extra low zero bits. *)
Lemma normalize_int (z j : Z) :
  Z.abs z < 2 ^ 53 -> 0 <= j ->
  binary_normalize prec emax (z * 2 ^ j) (- j) false = ofZ z.
Proof.
  intros Hz Hj.
  assert (Hp : 0 < 2 ^ j) by (apply Z.pow_pos_nonneg; lia).
  destruct z as [|v|v].
  - reflexivity.
  - rewrite ofZ_pos by lia.
    destruct (Zpos v * 2 ^ j) as [|m|m] eqn:E; try lia.
    cbn [binary_normalize]. apply binary_round_int; lia.
  - rewrite ofZ_neg by lia.
    destruct (Zneg v * 2 ^ j) as [|m|m] eqn:E; try lia.
    cbn [binary_normalize]. apply binary_round_int; lia.
Qed.

Lemma ofZ_finite (z : Z) :
  z <> 0 -> Z.abs z < 2 ^ 53 ->
  exists m e,
    ofZ z = S754_finite (z <? 0) m e /\
    - 52 <= e <= 0 /\
    Zpos m = Z.abs z * 2 ^ (- e) /\
    Zpos (digits2_pos m) = 53.
Proof.
  intros Hz Hb. destruct z as [|v|v]; [congruence| |].
  - rewrite ofZ_pos by lia. destruct (canon_mantissa v) as (Hd & Hc & Hdc); [lia|].
    eexists _, _. split; [reflexivity|]. split; [lia|]. split; [|exact Hdc].
    rewrite Hc. f_equal. f_equal. lia.
  - rewrite ofZ_neg by lia. destruct (canon_mantissa v) as (Hd & Hc & Hdc); [lia|].
    eexists _, _. split; [reflexivity|]. split; [lia|]. split; [|exact Hdc].
    rewrite Hc. f_equal. f_equal. lia.
Qed.

Lemma shl_align_fst (m : positive) (e e' : Z) :
  e' <= e -> Zpos (fst (shl_align m e e')) = Zpos m * 2 ^ (e - e').
Proof.
  intros He. unfold shl_align.
  destruct (e' - e) as [|t|t] eqn:Et; try lia.
  - replace (e - e') with 0 by lia. simpl. lia.
  - cbn [fst]. rewrite pos_iter_xO. f_equal. f_equal. lia.
Qed.

(** The mantissa of an integer, aligned at a lower exponent and signed,
    is the integer scaled by a power of two. *)
Lemma aligned_int (z : Z) (m : positive) (e ez : Z) :
  Zpos m = Z.abs z * 2 ^ (- e) -> ez <= e -> e <= 0 ->
  cond_Zopp (z <? 0) (Zpos (fst (shl_align m e ez))) = z * 2 ^ (- ez).
Proof.
  intros Hm Hez He. rewrite shl_align_fst, Hm by assumption.
  replace (- ez) with (- e + (e - ez)) by lia.
  rewrite Z.pow_add_r by lia.
  unfold cond_Zopp. destruct (Z.ltb_spec z 0); lia.
Qed.

Lemma add_int (a b : Z) :
  Z.abs a < 2 ^ 53 -> Z.abs b < 2 ^ 53 -> Z.abs (a + b) < 2 ^ 53 ->
  add (ofZ a) (ofZ b) = ofZ (a + b).
Proof.
  intros Ha Hb Hab.
  destruct (Z.eq_dec a 0) as [->|Ha0].
  { destruct (Z.eq_dec b 0) as [->|Hb0]; [reflexivity|].
    destruct (ofZ_finite b Hb0 Hb) as (m & e & E & _).
    rewrite Z.add_0_l, E. reflexivity. }
  destruct (Z.eq_dec b 0) as [->|Hb0].
  { destruct (ofZ_finite a Ha0 Ha) as (m & e & E & _).
    rewrite Z.add_0_r, E. reflexivity. }
  destruct (ofZ_finite a Ha0 Ha) as (ma & ea & -> & Hea & Hma & _).
  destruct (ofZ_finite b Hb0 Hb) as (mb & eb & -> & Heb & Hmb & _).
  unfold add. cbn [SFadd].
  rewrite (aligned_int a ma ea), (aligned_int b mb eb) by (assumption || lia).
  rewrite <- Z.mul_add_distr_r.
  set (j := - Z.min ea eb).
  replace (Z.min ea eb) with (- j) by (unfold j; lia).
  apply normalize_int; unfold j; lia.
Qed.

Lemma sub_int (a b : Z) :
  Z.abs a < 2 ^ 53 -> Z.abs b < 2 ^ 53 -> Z.abs (a - b) < 2 ^ 53 ->
  sub (ofZ a) (ofZ b) = ofZ (a - b).
Proof.
  intros Ha Hb Hab.
  destruct (Z.eq_dec b 0) as [->|Hb0].
  { rewrite Z.sub_0_r.
    destruct (Z.eq_dec a 0) as [->|Ha0]; [reflexivity|].
    destruct (ofZ_finite a Ha0 Ha) as (m & e & E & _).
    rewrite E. reflexivity. }
  destruct (Z.eq_dec a 0) as [->|Ha0].
  { destruct b as [|v|v]; [congruence| |].
    - rewrite ofZ_pos by lia. change (0 - Zpos v) with (Zneg v).
      rewrite ofZ_neg by lia. reflexivity.
    - rewrite ofZ_neg by lia. change (0 - Zneg v) with (Zpos v).
      rewrite ofZ_pos by lia. reflexivity. }
  destruct (ofZ_finite a Ha0 Ha) as (ma & ea & -> & Hea & Hma & _).
  destruct (ofZ_finite b Hb0 Hb) as (mb & eb & -> & Heb & Hmb & _).
  unfold sub. cbn [SFsub].
  rewrite (aligned_int a ma ea), (aligned_int b mb eb) by (assumption || lia).
  rewrite <- Z.mul_sub_distr_r.
  set (j := - Z.min ea eb).
  replace (Z.min ea eb) with (- j) by (unfold j; lia).
  apply normalize_int; unfold j; lia.
Qed.

Lemma round_nearest_even_bounds (q : Z) (l : location) :
  q <= round_nearest_even q l <= q + 1.
Proof.
  destruct l as [|[| |]]; cbn [round_nearest_even];
    try destruct (Z.even q); lia.
Qed.


Lemma floor_normal_nonneg (m : positive) (e : Z) :
  Zpos (digits2_pos m) = 53 -> e <= 0 ->
  exists Q,
    floor (S754_finite false m e) = ofZ Q /\
    0 <= Q /\ Q * 2 ^ (- e) <= Zpos m.
Proof.
  intros Hd He. pose proof (digits_bounds m) as [Hlo Hhi].
  rewrite Hd in Hlo, Hhi. cbn [floor].
  destruct (Z.leb_spec 0 e) as [H0|H0].
  - assert (e = 0) by lia. subst e. exists (Zpos m).
    split; [|simpl; lia].
    rewrite ofZ_pos by lia. unfold canon. rewrite Hd.
    change (53 - 53) with 0. rewrite Z.pow_0_r, Z.mul_1_r. reflexivity.
  - assert (HP : 0 < 2 ^ (- e)) by (apply Z.pow_pos_nonneg; lia).
    exists (Z.shiftr (Zpos m) (- e)). split; [reflexivity|].
    rewrite Z.shiftr_div_pow2 by lia. split.
    + apply Z.div_pos; lia.
    + rewrite Z.mul_comm. apply Z.mul_div_le. lia.
Qed.





End NumFacts.

(** ** SeededRandom.nextRange *)




(** ** generateSeed *)

Module SeedFacts.
Import JSString.


(** A lowercase hexadecimal digit is no white space, sign or [x], and
    reads back as the digit it prints. *)
Lemma hex_char_facts (d : Z) :
  0 <= d < 16 ->
  is_white_space (Sha256.hex_char d) = false /\
  (Sha256.hex_char d =? 45) = false /\
  (Sha256.hex_char d =? 43) = false /\
  (Sha256.hex_char d =? 120) = false /\
  (Sha256.hex_char d =? 88) = false /\
  hex_digit_value (Sha256.hex_char d) = Some d.
Proof.
  intros Hd.
  assert (H : hex_char_ok d = true).
  { apply (forallb_Z_range hex_char_ok 16); [reflexivity|exact Hd]. }
  unfold hex_char_ok in H.
  repeat (apply andb_true_iff in H; destruct H as [H ?]).
  repeat match goal with
         | h : negb _ = true |- _ => apply negb_true_iff in h
         end.
  destruct (hex_digit_value (Sha256.hex_char d)) as [d'|]; [|discriminate].
  repeat split; try assumption. f_equal. apply Z.eqb_eq. assumption.
Qed.

Lemma parseInt16_hex8 (d0 d1 d2 d3 d4 d5 d6 d7 : Z) :
  0 <= d0 < 16 -> 0 <= d1 < 16 -> 0 <= d2 < 16 -> 0 <= d3 < 16 ->
  0 <= d4 < 16 -> 0 <= d5 < 16 -> 0 <= d6 < 16 -> 0 <= d7 < 16 ->
  parseInt16 (map Sha256.hex_char [d0; d1; d2; d3; d4; d5; d6; d7])
  = Num.ofZ (((((((d0 * 16 + d1) * 16 + d2) * 16 + d3) * 16 + d4) * 16 + d5)
               * 16 + d6) * 16 + d7).
Proof.
  intros H0 H1 H2 H3 H4 H5 H6 H7.
  destruct (hex_char_facts d0 H0) as (W0 & M0 & P0 & _ & _ & V0).
  destruct (hex_char_facts d1 H1) as (_ & _ & _ & X1 & Y1 & V1).
  destruct (hex_char_facts d2 H2) as (_ & _ & _ & _ & _ & V2).
  destruct (hex_char_facts d3 H3) as (_ & _ & _ & _ & _ & V3).
  destruct (hex_char_facts d4 H4) as (_ & _ & _ & _ & _ & V4).
  destruct (hex_char_facts d5 H5) as (_ & _ & _ & _ & _ & V5).
  destruct (hex_char_facts d6 H6) as (_ & _ & _ & _ & _ & V6).
  destruct (hex_char_facts d7 H7) as (_ & _ & _ & _ & _ & V7).
  unfold parseInt16. cbn [map trim_start].
  rewrite W0, M0, P0, X1, Y1, andb_false_r.
  cbn [hex_prefix]. rewrite V0, V1, V2, V3, V4, V5, V6, V7.
  cbn [hex_prefix hex_value fold_left]. rewrite Z.mul_0_l, Z.add_0_l.
  destruct (Z.eqb_spec
              (((((((d0 * 16 + d1) * 16 + d2) * 16 + d3) * 16 + d4) * 16 + d5)
                 * 16 + d6) * 16 + d7) 0) as [E|E].
  - rewrite E. reflexivity.
  - reflexivity.
Qed.

(** The digest starts with four bytes, whatever the message. *)
Lemma digest_head (msg : list Z) :
  exists b0 b1 b2 b3 tail,
    Sha256.digest msg = b0 :: b1 :: b2 :: b3 :: tail /\
    0 <= b0 < 256 /\ 0 <= b1 < 256 /\ 0 <= b2 < 256 /\ 0 <= b3 < 256.
Proof.
  unfold Sha256.digest.
  generalize (fold_left Sha256.compress
                (Sha256.blocks (List.length (Sha256.pad msg) / 64) (Sha256.pad msg))
                Sha256.H0).
  intros h. unfold Sha256.be32 at 1. cbn [app].
  eexists _, _, _, _, _. split; [reflexivity|].
  repeat split; apply Z.mod_pos_bound; lia.
Qed.

Lemma digest_length (msg : list Z) : List.length (Sha256.digest msg) = 32%nat.
Proof.
  unfold Sha256.digest.
  generalize (fold_left Sha256.compress
                (Sha256.blocks (List.length (Sha256.pad msg) / 64) (Sha256.pad msg))
                Sha256.H0).
  intros h. reflexivity.
Qed.

Lemma hex_length (bytes : list Z) :
  List.length (Sha256.hex bytes) = (2 * List.length bytes)%nat.
Proof.
  induction bytes as [|b l IH]; [reflexivity|].
  cbn [Sha256.hex flat_map app List.length]. fold (Sha256.hex l).
  rewrite IH. lia.
Qed.

End SeedFacts.


(** The digest of the three bytes of ["abc"], as published with the
    standard, and a seed as [node] computes it. *)
Example digest_abc :
  Sha256.hex (Sha256.digest (JSString.utf8 (JSString.lit "abc")))
  = JSString.lit
      "ba7816bf8f01cfea414140de5dae2223b00361a396177a9cb410ff61f20015ad".
Proof. vm_compute. reflexivity. Qed.

Example generateSeed_abc :
  generateSeed (JSString.lit "abc") None = Num.ofZ 3128432319 /\
  generateSeed (JSString.lit "abc") (Some (JSString.lit "d"))
  = generateSeed (JSString.lit "abc-d") None.
Proof. split; vm_compute; reflexivity. Qed.

(** C6. [generateSeed] hashes ["{address}-{data}"] when [data] is present
    (a non-empty string) and [address] alone otherwise; its result is the
    first 8 hexadecimal characters of the SHA-256 digest of the UTF-8 bytes
    of that string read in base 16, which is the big-endian value [v] of
    the first four digest bytes; [0 <= v <= 0xFFFFFFFF]; and equal inputs
    give equal results. *)
Theorem generateSeed_sha256_prefix
  (address : JSString.jsstring) (data : option JSString.jsstring) :
  let hash := Sha256.hex (Sha256.digest (JSString.utf8 (seed_input address data))) in
  exists b0 b1 b2 b3 tail,
    Sha256.digest (JSString.utf8 (seed_input address data))
    = b0 :: b1 :: b2 :: b3 :: tail /\
    List.length hash = 64%nat /\
    generateSeed address data = JSString.parseInt16 (JSString.slice0 8 hash) /\
    generateSeed address data
    = Num.ofZ (b0 * 2 ^ 24 + b1 * 2 ^ 16 + b2 * 2 ^ 8 + b3) /\
    0 <= b0 * 2 ^ 24 + b1 * 2 ^ 16 + b2 * 2 ^ 8 + b3 <= 0xFFFFFFFF /\
    (forall address' data',
       address' = address -> data' = data ->
       generateSeed address' data' = generateSeed address data).
Proof.
  intros hash.
  assert (Hgen : generateSeed address data
                 = JSString.parseInt16 (JSString.slice0 8 hash)).
  { unfold generateSeed, seed_input, hash.
    destruct data as [[|c d]|]; reflexivity. }
  destruct (SeedFacts.digest_head (JSString.utf8 (seed_input address data)))
    as (b0 & b1 & b2 & b3 & tail & Hd & B0 & B1 & B2 & B3).
  exists b0, b1, b2, b3, tail.
  split; [exact Hd|]. split; [|split; [exact Hgen|split; [|split]]].
  - unfold hash.
    pose proof (SeedFacts.digest_length (JSString.utf8 (seed_input address data))) as Hl.
    rewrite SeedFacts.hex_length, Hl. reflexivity.
  - rewrite Hgen. unfold hash. rewrite Hd.
    change (JSString.slice0 8 (Sha256.hex (b0 :: b1 :: b2 :: b3 :: tail)))
      with (map Sha256.hex_char
              [b0 / 16; b0 mod 16; b1 / 16; b1 mod 16;
               b2 / 16; b2 mod 16; b3 / 16; b3 mod 16]).
    rewrite SeedFacts.parseInt16_hex8;
      try (apply Z.mod_pos_bound; lia);
      try (split; [apply Z.div_pos|apply Z.div_lt_upper_bound]; lia).
    f_equal.
    pose proof (Z.div_mod b0 16 ltac:(lia)).
    pose proof (Z.div_mod b1 16 ltac:(lia)).
    pose proof (Z.div_mod b2 16 ltac:(lia)).
    pose proof (Z.div_mod b3 16 ltac:(lia)).
    lia.
  - lia.
  - intros address' data' -> ->. reflexivity.
Qed.

(** C10. An empty [data] string is falsy, so it is treated as an absent
    one: the identifier alone is hashed. *)
Theorem generateSeed_empty_data (address : JSString.jsstring) :
  generateSeed address (Some []) = generateSeed address None.
Proof. reflexivity. Qed.

(** ** drawPattern *)

Lemma forLoop_invariant {St : Type} (P : St -> Prop)
  (n : nat) (i : Z) (body : Z -> St -> option St) (s s' : St) :
  (forall i s s', P s -> body i s = Some s' -> P s') ->
  P s -> forLoop n i body s = Some s' -> P s'.
Proof.
  intros Hbody. revert i s. induction n as [|n IH]; intros i s Hs Hrun.
  - cbn [forLoop] in Hrun. injection Hrun as <-. exact Hs.
  - cbn [forLoop] in Hrun. destruct (body i s) as [s1|] eqn:E; [|discriminate].
    apply (IH (i + 1) s1); [|exact Hrun]. exact (Hbody i s s1 Hs E).
Qed.


Section PatternFacts.

Variable Math_random : nat -> Num.number.


Lemma pickElementColor_differs (fuel : nat) (st : Settings)
  (bg el : Num.number) (n : nat) (el' : Num.number) (n' : nat) :
  pickElementColor Math_random fuel st bg el n = Some (el', n') ->
  Num.strict_eq el' bg = false.
Proof.
  revert el n. induction fuel as [|fuel IH]; intros el n H.
  - cbn [pickElementColor] in H.
    destruct (Num.strict_eq el bg) eqn:E; [discriminate|].
    injection H as <- <-. exact E.
  - cbn [pickElementColor] in H.
    destruct (Num.strict_eq el bg) eqn:E.
    + destruct (random Math_random Num.zero
                  (Num.sub (length_ (colors st)) Num.one) n) as [el1 n1].
      exact (IH el1 n1 H).
    + injection H as <- <-. exact E.
Qed.

Lemma pickElementColor_step (fuel : nat) (st : Settings)
  (bg el : Num.number) (n : nat) :
  Num.strict_eq el bg = true ->
  pickElementColor Math_random (S fuel) st bg el n
  = pickElementColor Math_random fuel st bg (attempt Math_random st n 0) (S n).
Proof.
  intros E. cbn [pickElementColor]. rewrite E.
  unfold attempt, random. cbn [fst]. rewrite Nat.add_0_r. reflexivity.
Qed.

Lemma pickElementColor_stop (fuel : nat) (st : Settings)
  (bg el : Num.number) (n : nat) :
  Num.strict_eq el bg = false ->
  pickElementColor Math_random fuel st bg el n = Some (el, n).
Proof.
  intros E. destruct fuel; cbn [pickElementColor]; rewrite E; reflexivity.
Qed.

Lemma attempt_shift (st : Settings) (n k : nat) :
  attempt Math_random st (S n) k = attempt Math_random st n (S k).
Proof.
  unfold attempt. replace (S n + k)%nat with (n + S k)%nat by lia. reflexivity.
Qed.

Lemma chooseCell_differs (fuel : nat) (st : Settings) (i j : Z) (n : nat)
  (c : Cell) (n' : nat) :
  chooseCell Math_random fuel st i j n = Some (c, n') ->
  Num.strict_eq (elementColorIndex c) (bgColorIndex c) = false.
Proof.
  unfold chooseCell.
  destruct (random Math_random Num.zero
              (Num.sub (length_ (colors st)) Num.one) n) as [bg n1].
  destruct (random Math_random Num.zero
              (Num.sub (length_ (colors st)) Num.one) n1) as [el n2].
  destruct (pickElementColor Math_random fuel st bg el n2) as [[el' n3]|] eqn:E;
    [|discriminate].
  destruct (random Math_random Num.zero
              (Num.sub (length_ (offsets st)) Num.one) n3) as [oi n4].
  intros H. injection H as <- <-. cbn [elementColorIndex bgColorIndex].
  exact (pickElementColor_differs _ _ _ _ _ _ _ E).
Qed.

End PatternFacts.





(** C4 (as amended). The colour-selection loop returns exactly when the
    element index already differs from the background index or some later
    draw of [random(0, colors.length - 1)] does; it then returns a value
    that differs from the background index. The size of the palette plays
    no other part. *)
Theorem pickElementColor_terminates_iff
  (Math_random : nat -> Num.number) (st : Settings)
  (bg el : Num.number) (n : nat) :
  (exists fuel r,
     pickElementColor Math_random fuel st bg el n = Some r /\
     Num.strict_eq (fst r) bg = false)
  <->
  (Num.strict_eq el bg = false \/
   exists k, Num.strict_eq (attempt Math_random st n k) bg = false).
Proof.
  split.
  - intros (fuel & r & H & _). revert el n H.
    induction fuel as [|fuel IH]; intros el n H.
    + cbn [pickElementColor] in H.
      destruct (Num.strict_eq el bg); [discriminate|]. left. reflexivity.
    + destruct (Num.strict_eq el bg) eqn:E; [|left; reflexivity].
      rewrite pickElementColor_step in H by exact E.
      right. destruct (IH _ _ H) as [H0|(k & Hk)].
      * exists 0%nat. exact H0.
      * exists (S k). rewrite <- attempt_shift. exact Hk.
  - intros H.
    assert (Hk : forall k el n,
               Num.strict_eq (attempt Math_random st n k) bg = false ->
               exists fuel r,
                 pickElementColor Math_random fuel st bg el n = Some r).
    { clear. induction k as [|k IH]; intros el n Hk.
      - destruct (Num.strict_eq el bg) eqn:E.
        + exists 1%nat. eexists. rewrite pickElementColor_step by exact E.
          apply pickElementColor_stop. exact Hk.
        + exists 0%nat. eexists. apply pickElementColor_stop. exact E.
      - destruct (Num.strict_eq el bg) eqn:E.
        + rewrite <- attempt_shift in Hk.
          destruct (IH (attempt Math_random st n 0) (S n) Hk) as (fuel & r & Hr).
          exists (S fuel), r. rewrite pickElementColor_step by exact E. exact Hr.
        + exists 0%nat. eexists. apply pickElementColor_stop. exact E. }
    assert (Hex : exists fuel r,
               pickElementColor Math_random fuel st bg el n = Some r).
    { destruct H as [H|(k & H)].
      - exists 0%nat. eexists. apply pickElementColor_stop. exact H.
      - exact (Hk k el n H). }
    destruct Hex as (fuel & [el' n'] & Hr).
    exists fuel, (el', n'). split; [exact Hr|].
    exact (pickElementColor_differs _ _ _ _ _ _ _ _ Hr).
Qed.

(** C4 (as stated) fails: with the five colours of the source, a random
    source that returns [0] at every call draws index [0] for the
    background and for the element, and the loop never leaves. *)
Lemma pickElementColor_never_returns_counterexample :
  2 <= Z.of_nat (List.length (colors settings)) /\
  ~ (forall (Math_random : nat -> Num.number) (i j : Z) (n : nat),
       exists fuel c, chooseCell Math_random fuel settings i j n = Some c).
Proof.
  split; [cbn; lia|].
  intros H. destruct (H sourceZero 0 0 0%nat) as (fuel & c & Hc).
  assert (Hloop : forall fuel n,
             pickElementColor sourceZero fuel settings Num.zero Num.zero n = None).
  { clear. induction fuel as [|fuel IH]; intros n; [reflexivity|].
    rewrite pickElementColor_step by reflexivity. apply IH. }
  unfold chooseCell in Hc.
  change (random sourceZero Num.zero
            (Num.sub (length_ (colors settings)) Num.one) 0)
    with (Num.zero, 1%nat) in Hc.
  cbv beta iota zeta in Hc.
  change (random sourceZero Num.zero
            (Num.sub (length_ (colors settings)) Num.one) 1)
    with (Num.zero, 2%nat) in Hc.
  cbv beta iota zeta in Hc. rewrite Hloop in Hc. discriminate Hc.
Qed.

(** ** handler *)



Lemma firstCallSent_differs {Image Error : Type}
  (o1 o2 : option (Outcome Image (list (CanvasCall unit)) Error)) :
  firstCallSent o1 <> firstCallSent o2 -> sent o1 <> sent o2.
Proof.
  intros Hne Heq. apply Hne. unfold firstCallSent. rewrite Heq. reflexivity.
Qed.

(** C1 fails on the code. The same request handled twice, with
    [Math.random] returning [0.1, 0.9, ...] the first time and
    [0.9, 0.1, ...] the second, is answered with two different images: the
    identifier and hence the seed are the same, but the first cell is
    filled with [colors[0]] in one run and with [colors[4]] in the other. *)
Theorem pattern_not_determined_by_identifier :
  firstCallSent (handler sampleEncoder sourceA loadOk 0 sampleQuery)
  = Some (SetFillStyle (Color (Some "#FFE8FF"%string))) /\
  firstCallSent (handler sampleEncoder sourceB loadOk 0 sampleQuery)
  = Some (SetFillStyle (Color (Some "#672EEB"%string))) /\
  sent (handler sampleEncoder sourceA loadOk 0 sampleQuery)
  <> sent (handler sampleEncoder sourceB loadOk 0 sampleQuery).
Proof.
  assert (HA : firstCallSent (handler sampleEncoder sourceA loadOk 0 sampleQuery)
               = Some (SetFillStyle (Color (Some "#FFE8FF"%string))))
    by (vm_compute; reflexivity).
  assert (HB : firstCallSent (handler sampleEncoder sourceB loadOk 0 sampleQuery)
               = Some (SetFillStyle (Color (Some "#672EEB"%string))))
    by (vm_compute; reflexivity).
  split; [exact HA|]. split; [exact HB|].
  apply firstCallSent_differs. rewrite HA, HB. discriminate.
Qed.

(** C2. Two requests whose [address] is present and non-empty, handled
    with the same numbers from [Math.random] and the same result of loading
    the watermark, have the same outcome, whatever [address] and [data]
    are: in particular the same bytes are sent. *)
Theorem handler_ignores_address_and_data
  {Image Buffer Error : Type} (toBuffer : Canvas Image -> Buffer)
  (Math_random : nat -> Num.number) (loadImage : string -> Error + Image)
  (fuel : nat) (q1 q2 : Query) :
  falsy (address q1) = false ->
  falsy (address q2) = false ->
  handler toBuffer Math_random loadImage fuel q1
  = handler toBuffer Math_random loadImage fuel q2.
Proof.
  intros H1 H2. unfold handler. rewrite H1, H2. reflexivity.
Qed.

Lemma handler_ignores_address_and_data_witness :
  falsy (address sampleQuery) = false /\
  falsy (address otherQuery) = false /\
  handler sampleEncoder sourceA loadOk 0 sampleQuery
  = handler sampleEncoder sourceA loadOk 0 otherQuery.
Proof.
  split; [reflexivity|]. split; [reflexivity|].
  apply (handler_ignores_address_and_data
           sampleEncoder sourceA loadOk 0 sampleQuery otherQuery);
    reflexivity.
Defined.

(** C8. A request whose [address] is absent or empty is answered with
    status 400 and the JSON object [{ error: ... }]; no canvas is created,
    [Math.random] and [loadImage] are not called, and nothing is sent. *)
Theorem handler_rejects_missing_address
  {Image Buffer Error : Type} (toBuffer : Canvas Image -> Buffer)
  (Math_random : nat -> Num.number) (loadImage : string -> Error + Image)
  (fuel : nat) (q : Query) :
  address q = None \/ address q = Some [] ->
  exists o,
    handler toBuffer Math_random loadImage fuel q = Some o /\
    response o
    = [Status 400;
       Json [("error", "Valid Ethereum address is required")]%string] /\
    surface o = None /\
    randomCalls o = 0%nat /\
    imageRequested o = false /\
    consoleErrors o = [] /\
    (forall body, ~ In (Send body) (response o)).
Proof.
  intros Ha. exists badRequest.
  assert (Hf : falsy (address q) = true) by (destruct Ha as [-> | ->]; reflexivity).
  unfold handler. rewrite Hf.
  repeat (split; [reflexivity|]).
  intros body [H|[H|[]]]; discriminate H.
Qed.

Lemma handler_rejects_missing_address_witness :
  (address {| address := Some []; data := Some (JSString.lit "xyz") |} = None \/
   address {| address := Some []; data := Some (JSString.lit "xyz") |} = Some []) /\
  exists o,
    handler sampleEncoder sourceA loadOk 0
      {| address := Some []; data := Some (JSString.lit "xyz") |} = Some o /\
    response o
    = [Status 400;
       Json [("error", "Valid Ethereum address is required")]%string] /\
    surface o = None /\
    randomCalls o = 0%nat /\
    imageRequested o = false /\
    consoleErrors o = [] /\
    (forall body, ~ In (Send body) (response o)).
Proof.
  split; [right; reflexivity|].
  apply (handler_rejects_missing_address sampleEncoder sourceA loadOk 0).
  right. reflexivity.
Defined.

(** C9. When loading the watermark fails, every run of the handler that
    asked for it ends with status 500 and the JSON object
    [{ error: "Internal server error" }]: the error is logged and no buffer
    is sent. The handler does get there whenever [address] is present and
    [drawPattern] returns. *)
Theorem handler_watermark_failure
  {Image Buffer Error : Type} (toBuffer : Canvas Image -> Buffer)
  (Math_random : nat -> Num.number) (loadImage : string -> Error + Image)
  (fuel : nat) (q : Query) (error : Error) :
  loadImage imageUrl = inl error ->
  (forall o,
     handler toBuffer Math_random loadImage fuel q = Some o ->
     imageRequested o = true ->
     response o
     = [Status 500; Json [("error", "Internal server error")]%string] /\
     consoleErrors o = [error] /\
     (forall body, ~ In (Send body) (response o))) /\
  (forall d,
     falsy (address q) = false ->
     drawPattern Math_random fuel (createCanvas Image 400 400) 0 = Some d ->
     exists o,
       handler toBuffer Math_random loadImage fuel q = Some o /\
       imageRequested o = true).
Proof.
  intros Hload. split.
  - intros o Ho Hreq. unfold handler in Ho.
    destruct (falsy (address q)).
    { injection Ho as <-. discriminate Hreq. }
    cbv zeta in Ho.
    destruct (drawPattern Math_random fuel (createCanvas Image 400 400) 0)
      as [d|]; [|discriminate Ho].
    rewrite Hload in Ho. injection Ho as <-. cbn [response consoleErrors].
    split; [reflexivity|]. split; [reflexivity|].
    intros body [H|[H|[]]]; discriminate H.
  - intros d Hf Hd. unfold handler. rewrite Hf. cbv zeta.
    rewrite Hd, Hload. eexists. split; reflexivity.
Qed.

Lemma handler_watermark_failure_witness :
  loadFails imageUrl = inl "fetch failed"%string /\
  (forall o,
     handler sampleEncoder sourceA loadFails 0 sampleQuery = Some o ->
     imageRequested o = true ->
     response o
     = [Status 500; Json [("error", "Internal server error")]%string] /\
     consoleErrors o = ["fetch failed"%string] /\
     (forall body, ~ In (Send body) (response o))) /\
  (forall d,
     falsy (address sampleQuery) = false ->
     drawPattern sourceA 0 (createCanvas unit 400 400) 0 = Some d ->
     exists o,
       handler sampleEncoder sourceA loadFails 0 sampleQuery = Some o /\
       imageRequested o = true).
Proof.
  split; [reflexivity|].
  apply (handler_watermark_failure sampleEncoder sourceA loadFails 0 sampleQuery).
  reflexivity.
Defined.


(** * Further properties *)

(** ** Rounding to nearest, in general *)

Module Rounding.
Import Num NumSpec NumFacts.

Lemma shr_iter_r (n : nat) (m : Z) :
  0 <= m ->
  shr_r (Nat.iter (S n) shr_1 (Build_shr_record m false false))
  = Z.odd (m / 2 ^ Z.of_nat n).
Proof.
  intros Hm. rewrite Nat.iter_succ.
  pose proof (shr_iter_m n (Build_shr_record m false false) Hm) as Hq.
  destruct (Nat.iter n shr_1 (Build_shr_record m false false)) as [q r s].
  cbn [shr_m] in Hq. subst q.
  rewrite shr_1_spec; [reflexivity|].
  apply Z.div_pos; [assumption|]. apply Z.pow_pos_nonneg; lia.
Qed.

(** When the bits shifted out are less than half a unit, the mantissa is
    kept as it is. *)
Lemma shr_round_down (M E k : Z) :
  0 <= M -> 0 <= k -> 2 * (M mod 2 ^ k) < 2 ^ k ->
  round_nearest_even
    (shr_m (fst (shr (Build_shr_record M false false) E k)))
    (loc_of_shr_record (fst (shr (Build_shr_record M false false) E k)))
  = M / 2 ^ k.
Proof.
  intros HM Hk Hrem. destruct k as [|p|p]; [| |lia].
  - cbn. rewrite Z.div_1_r. reflexivity.
  - cbn [shr fst]. rewrite iter_pos_nat.
    destruct (Pos2Nat.is_succ p) as [n Hn]. rewrite Hn.
    pose proof (shr_iter_m (S n) (Build_shr_record M false false) HM) as Hq.
    pose proof (shr_iter_r n M HM) as Hr.
    destruct (Nat.iter (S n) shr_1 (Build_shr_record M false false)) as [q r s].
    cbn [shr_m shr_r] in Hq, Hr.
    assert (Hp : Zpos p = Z.of_nat (S n)) by lia.
    rewrite <- Hp in Hq. subst q.
    assert (Hev : Z.odd (M / 2 ^ Z.of_nat n) = false).
    { assert (H2 : 0 < 2 ^ Z.of_nat n) by (apply Z.pow_pos_nonneg; lia).
      assert (Hpow : 2 ^ Zpos p = 2 * 2 ^ Z.of_nat n).
      { rewrite Hp, Nat2Z.inj_succ, Z.pow_succ_r by lia. reflexivity. }
      pose proof (Z.div_mod M (2 ^ Zpos p) ltac:(lia)) as Hdm.
      pose proof (Z.mod_pos_bound M (2 ^ Zpos p) ltac:(lia)) as Hmb.
      assert (Hd : M / 2 ^ Z.of_nat n = 2 * (M / 2 ^ Zpos p)).
      { symmetry. apply (Z.div_unique M (2 ^ Z.of_nat n) _ (M mod 2 ^ Zpos p));
          [lia|]. rewrite Hpow in Hdm at 1. lia. }
      rewrite Hd, Z.odd_mul. reflexivity. }
    rewrite Hev in Hr. subst r.
    cbn [loc_of_shr_record shr_m]. destruct s; reflexivity.
Qed.

(** What [binary_round_aux] returns for a mantissa [M] at exponent [E] that
    has to be shifted right by [k >= 0] bits: the shifted mantissa [q] or
    its successor, then renormalised if it reached [2^53]. *)
Lemma round_aux_shape (s : bool) (M : positive) (E : Z) :
  let d := Zpos (digits2_pos M) in
  let f := fexp prec emax (d + E) in
  let k := f - E in
  let q := Zpos M / 2 ^ k in
  0 <= k -> f <= 970 ->
  exists m1,
    q <= m1 <= q + 1 /\
    (2 * (Zpos M mod 2 ^ k) < 2 ^ k -> m1 = q) /\
    ((m1 = 0 /\ binary_round_aux prec emax s (Zpos M) E loc_Exact = S754_zero s)
     \/
     (exists m2 e2,
        binary_round_aux prec emax s (Zpos M) E loc_Exact = S754_finite s m2 e2 /\
        f <= e2 <= f + 1 /\
        Zpos m2 * 2 ^ (e2 - f) = m1 /\
        (e2 = f + 1 -> m1 = 2 ^ 53) /\
        (2 ^ 52 <= q -> Zpos (digits2_pos m2) = 53))).
Proof.
  intros d f k q Hk Hf.
  pose proof (digits_bounds M) as [Hlo Hhi]. fold d in Hlo, Hhi.
  assert (HK : 0 < 2 ^ k) by (apply Z.pow_pos_nonneg; lia).
  assert (Hfd : d + E - 53 <= f /\ - 1074 <= f)
    by (unfold f, fexp, emin, prec, emax; lia).
  assert (Hq0 : 0 <= q) by (apply Z.div_pos; lia).
  assert (Hq53 : q < 2 ^ 53).
  { unfold q. apply Z.div_lt_upper_bound; [lia|].
    apply Z.lt_le_trans with (2 ^ d); [exact Hhi|].
    rewrite <- Z.pow_add_r by lia. apply Z.pow_le_mono_r; unfold k; lia. }
  unfold binary_round_aux, shr_fexp. cbn [Zdigits2 shr_record_of_loc].
  fold d. fold f. fold k.
  pose proof (shr_round_down (Zpos M) E k ltac:(lia) Hk) as Hdown.
  destruct (shr_floor (Zpos M) E k false false) as [Hm1 He1]; [lia|lia|].
  destruct (shr {| shr_m := Zpos M; shr_r := false; shr_s := false |} E k)
    as [mrs' e'] eqn:E1.
  cbn [fst snd] in Hm1, He1, Hdown. fold q in Hm1, Hdown. subst e'.
  rewrite Hm1 in *.
  replace (E + k) with f by (unfold k; lia).
  pose proof (round_nearest_even_bounds q (loc_of_shr_record mrs')) as Hr.
  set (r1 := round_nearest_even q (loc_of_shr_record mrs')) in *.
  exists r1. split; [exact Hr|]. split; [exact Hdown|].
  destruct r1 as [|m1|m1]; [left|right|lia].
  - split; [reflexivity|].
    cbn [Zdigits2 shr_record_of_loc].
    destruct (fexp prec emax (0 + f) - f) as [|t|t] eqn:Et.
    + reflexivity.
    + exfalso. unfold fexp, emin, prec, emax in Et. lia.
    + reflexivity.
  - cbn [Zdigits2 shr_record_of_loc].
    destruct (Z_lt_le_dec (Zpos m1) (2 ^ 53)) as [Hlt|Hge].
    + pose proof (digits_bounds m1) as [Hlo1 Hhi1].
      assert (Hd1 : Zpos (digits2_pos m1) <= 53).
      { destruct (Z_lt_le_dec 53 (Zpos (digits2_pos m1))); [|lia]. exfalso.
        assert (2 ^ 53 <= 2 ^ (Zpos (digits2_pos m1) - 1))
          by (apply Z.pow_le_mono_r; lia). lia. }
      assert (Hk1 : fexp prec emax (Zpos (digits2_pos m1) + f) - f <= 0)
        by (unfold fexp, emin, prec, emax; lia).
      assert (Hshr : shr {| shr_m := Zpos m1; shr_r := false; shr_s := false |} f
                       (fexp prec emax (Zpos (digits2_pos m1) + f) - f)
                     = ({| shr_m := Zpos m1; shr_r := false; shr_s := false |}, f)).
      { destruct (fexp prec emax (Zpos (digits2_pos m1) + f) - f); try reflexivity.
        lia. }
      rewrite Hshr. cbn [shr_m].
      replace (f <=? emax - prec) with true
        by (symmetry; apply Z.leb_le; unfold emax, prec; lia).
      exists m1, f. split; [reflexivity|]. split; [lia|].
      split; [rewrite Z.sub_diag; simpl; lia|].
      split; [lia|].
      intros Hq52. apply digits_unique. lia.
    + assert (H53 : Zpos m1 = 2 ^ 52 * 2 ^ 1) by lia.
      assert (Hd1 : Zpos (digits2_pos m1) = 54) by (apply digits_unique; lia).
      rewrite Hd1.
      replace (fexp prec emax (54 + f) - f) with 1
        by (unfold fexp, emin, prec, emax; lia).
      rewrite H53, shr_exact by lia.
      cbn [shr_m]. change (2 ^ 52) with (Zpos (2 ^ 52)%positive). cbv iota.
      replace (f + 1 <=? emax - prec) with true
        by (symmetry; apply Z.leb_le; unfold emax, prec; lia).
      exists (2 ^ 52)%positive, (f + 1). split; [reflexivity|]. split; [lia|].
      split; [replace (f + 1 - f) with 1 by lia; reflexivity|].
      split; [intros _; lia|intros _; reflexivity].
Qed.

Lemma floor_nonneg (m : positive) (e : Z) :
  e <= 0 -> (e = 0 -> Zpos (digits2_pos m) = 53) ->
  exists Q,
    floor (S754_finite false m e) = ofZ Q /\
    0 <= Q /\ Q * 2 ^ (- e) <= Zpos m.
Proof.
  intros He Hd. destruct (Z.eq_dec e 0) as [->|Hne].
  - apply floor_normal_nonneg; [auto|lia].
  - cbn [floor]. destruct (Z.leb_spec 0 e) as [H0|H0]; [lia|].
    assert (HP : 0 < 2 ^ (- e)) by (apply Z.pow_pos_nonneg; lia).
    exists (Z.shiftr (Zpos m) (- e)). split; [reflexivity|].
    rewrite Z.shiftr_div_pow2 by lia. split.
    + apply Z.div_pos; lia.
    + rewrite Z.mul_comm. apply Z.mul_div_le. lia.
Qed.

Lemma one_eq : one = S754_finite false 4503599627370496 (- 52).
Proof. reflexivity. Qed.

Lemma unit_fraction_bounds (m : positive) (e : Z) :
  is_unit_fraction (S754_finite false m e) = true ->
  Zpos m < 2 ^ 53 /\ Zpos m < 2 ^ (- e).
Proof.
  cbn [is_unit_fraction]. intros H.
  apply andb_true_iff in H. destruct H as [Hb Hlt].
  unfold bounded, canonical_mantissa in Hb.
  apply andb_true_iff in Hb. destruct Hb as [Hc _].
  apply Z.eqb_eq in Hc.
  pose proof (digits_bounds m) as [Hlo Hhi].
  assert (Hd : Zpos (digits2_pos m) <= 53)
    by (unfold fexp, emin, prec, emax in Hc; lia).
  assert (Hm : Zpos m < 2 ^ 53).
  { apply Z.lt_le_trans with (2 ^ Zpos (digits2_pos m)); [exact Hhi|].
    apply Z.pow_le_mono_r; lia. }
  split; [exact Hm|].
  rewrite one_eq in Hlt. unfold ltb, SFltb in Hlt. cbn [SFcompare] in Hlt.
  destruct (Z.compare_spec e (- 52)) as [He|He|He]; [| |discriminate].
  - subst e. change (- - 52) with 52.
    rewrite Pos.compare_cont_spec in Hlt. cbn [Pos.switch_Eq] in Hlt.
    destruct (Pos.compare_spec m 4503599627370496) as [Hc'|Hc'|Hc'];
      try discriminate.
    change (2 ^ 52) with (Zpos 4503599627370496).
    apply Pos2Z.pos_lt_pos. exact Hc'.
  - apply Z.lt_le_trans with (2 ^ 53); [exact Hm|].
    apply Z.pow_le_mono_r; lia.
Qed.

End Rounding.

Module UnitFraction.
Import Num NumSpec NumFacts Rounding.

Lemma mul_ge_self (a c : Z) : 0 <= a -> 1 <= c -> a <= a * c.
Proof. intros Ha Hc. rewrite <- (Z.mul_1_r a) at 1. apply Z.mul_le_mono_nonneg_l; lia. Qed.

Lemma gap_arith (mn m A K : Z) :
  2 ^ 52 <= mn -> 0 < m < 2 ^ 53 -> m < A ->
  2 ^ 52 * K <= m * mn -> K <= 2 ^ 52 \/ K = 2 ^ 53 ->
  K < 2 * (mn * (A - m)).
Proof.
  intros Hmn Hm HA HK Hcase.
  assert (H1 : mn <= mn * (A - m)) by (apply mul_ge_self; lia).
  destruct Hcase as [Hk|Hk]; [lia|].
  subst K.
  assert (2 ^ 52 < mn); [|lia].
  destruct (Z_lt_le_dec (2 ^ 52) mn) as [|Hle]; [assumption|exfalso].
  assert (mn = 2 ^ 52) by lia. subst mn.
  assert (m * 2 ^ 52 < 2 ^ 53 * 2 ^ 52) by (apply Z.mul_lt_mono_pos_r; lia).
  lia.
Qed.

(** The product of a positive number below [1] and a positive integer [N],
    rounded to nearest and floored, is an integer below [N]: rounding up to
    [N] itself would need the product to be within half a unit of [N], and
    a factor of at most [1 - 2^-53] keeps it further away. *)
Lemma floor_mul_unit_below (m : positive) (e N : Z) :
  Zpos m < 2 ^ 53 -> Zpos m < 2 ^ (- e) -> 1 <= N < 2 ^ 53 ->
  exists Q,
    floor (mul (S754_finite false m e) (ofZ N)) = ofZ Q /\ 0 <= Q < N.
Proof.
  intros Hm53 HmA HN.
  destruct (ofZ_finite N) as (mn & en & EN & Hen & Hmn & Hdn); [lia|lia|].
  replace (N <? 0) with false in EN by (symmetry; apply Z.ltb_ge; lia).
  rewrite Z.abs_eq in Hmn by lia.
  assert (He : e < 0).
  { destruct (Z_lt_le_dec e 0) as [|He0]; [assumption|exfalso].
    destruct (Z.eq_dec e 0) as [->|]; [simpl in HmA; lia|].
    rewrite Z.pow_neg_r in HmA by lia. lia. }
  pose proof (digits_bounds mn) as [Hmnlo Hmnhi]. rewrite Hdn in Hmnlo, Hmnhi.
  change (53 - 1) with 52 in Hmnlo.
  rewrite EN. unfold mul. cbn [SFmul xorb].
  set (M := (m * mn)%positive).
  assert (HM : Zpos M = Zpos m * Zpos mn) by reflexivity.
  pose proof (digits_bounds M) as [HMlo HMhi].
  set (d := Zpos (digits2_pos M)) in *.
  set (E := e + en).
  set (f := fexp prec emax (d + E)).
  set (k := f - E).
  assert (Hfmax : f = Z.max (d + E - 53) (- 1074))
    by (unfold f, fexp, emin, prec, emax; lia).
  (* the number of digits of the product *)
  assert (Hd53 : 53 <= d).
  { assert (52 < d); [|lia].
    apply (Z.pow_lt_mono_r_iff 2); [lia|unfold d; lia|].
    apply Z.le_lt_trans with (Zpos M); [|exact HMhi]. rewrite HM. nia. }
  assert (Hd106 : d <= 106).
  { assert (d - 1 < 106); [|lia].
    apply (Z.pow_lt_mono_r_iff 2); [lia|lia|].
    apply Z.le_lt_trans with (Zpos M); [exact HMlo|].
    rewrite HM. change (2 ^ 106) with (2 ^ 53 * 2 ^ 53). nia. }
  assert (HA53 : 0 < 2 ^ (- e)) by (apply Z.pow_pos_nonneg; lia).
  assert (Hde : d - 53 <= - e).
  { assert (d - 1 < 53 + - e); [|lia].
    apply (Z.pow_lt_mono_r_iff 2); [lia|lia|].
    apply Z.le_lt_trans with (Zpos M); [exact HMlo|].
    rewrite HM, Z.pow_add_r by lia. nia. }
  assert (Hk0 : 0 <= k) by (unfold k; lia).
  assert (Hke : k <= - e) by (unfold k, E; lia).
  assert (Hf0 : f <= en) by (unfold k, E in Hke; lia).
  destruct (round_aux_shape false M E) as (m1 & Hr & Hdown & Hres);
    [fold d; fold f; fold k; exact Hk0|fold d; fold f; lia|].
  fold d in Hr, Hdown, Hres. fold f in Hr, Hdown, Hres. fold k in Hr, Hdown.
  set (q := Zpos M / 2 ^ k) in *.
  (* the powers of two involved *)
  set (A := 2 ^ (- e)) in *.
  set (K := 2 ^ k) in *.
  set (R := 2 ^ (- e - k)).
  assert (HK : 0 < K) by (apply Z.pow_pos_nonneg; lia).
  assert (HR : 0 < R) by (apply Z.pow_pos_nonneg; lia).
  assert (HAKR : A = K * R).
  { unfold A, K, R. rewrite <- Z.pow_add_r by lia. f_equal. lia. }
  assert (HqM : K * q <= Zpos M) by (apply Z.mul_div_le; exact HK).
  assert (Hqmod : Zpos M mod K = Zpos M - K * q) by (apply Z.mod_eq; lia).
  assert (HMA : Zpos M < Zpos mn * A) by (rewrite HM; nia).
  assert (Hq53 : q < 2 ^ 53).
  { unfold q. apply Z.div_lt_upper_bound; [exact HK|].
    apply Z.lt_le_trans with (2 ^ d); [exact HMhi|].
    unfold K. rewrite <- Z.pow_add_r by lia.
    apply Z.pow_le_mono_r; [lia|]. lia. }
  assert (HqN : q < Zpos mn * R).
  { unfold q. apply Z.div_lt_upper_bound; [exact HK|].
    rewrite HAKR in HMA. lia. }
  (* the rounded mantissa stays below [N], counted in units of the result *)
  assert (Hm1 : m1 < Zpos mn * R).
  { destruct (Z_lt_le_dec (q + 1) (Zpos mn * R)) as [|Hqe]; [lia|].
    assert (Hq1 : q + 1 = Zpos mn * R) by lia.
    rewrite Hdown; [exact HqN|].
    rewrite Hqmod.
    assert (Hrem : Zpos M - K * q = K - Zpos mn * (A - Zpos m)).
    { replace (K * q) with (K * (q + 1) - K) by lia.
      rewrite Hq1, HM, HAKR. lia. }
    rewrite Hrem.
    assert (Hgap : K < 2 * (Zpos mn * (A - Zpos m))); [|lia].
    destruct (Z_lt_le_dec (d - 53) k) as [Htiny|Hnorm].
    - (* the result is subnormal: this cannot be *)
      exfalso.
      assert (Hek : 1022 <= - e - k) by (unfold k, E; lia).
      assert (2 ^ 1022 <= R) by (apply Z.pow_le_mono_r; lia).
      assert (2 ^ 52 * 2 ^ 1022 <= Zpos mn * R)
        by (apply Z.mul_le_mono_nonneg; lia).
      assert (2 ^ 53 < 2 ^ 52 * 2 ^ 1022).
      { rewrite <- Z.pow_add_r by lia. apply Z.pow_lt_mono_r; lia. }
      lia.
    - assert (Hkd : k = d - 53) by (unfold k; lia).
      assert (HMK : 2 ^ 52 * K <= Zpos M).
      { unfold K. rewrite <- Z.pow_add_r by lia.
        replace (52 + k) with (d - 1) by lia. exact HMlo. }
      apply gap_arith;
        [lia|lia|exact HmA|rewrite <- HM; exact HMK|].
      destruct (Z_le_gt_dec k 52) as [Hk52|Hk53].
      + left. apply Z.pow_le_mono_r; lia.
      + right. unfold K. f_equal. lia. }
  destruct Hres as [[Hz Hzero]|(m2 & e2 & Hfin & He2 & Hval & Hren & Hdig)].
  - rewrite Hzero. exists 0. split; [reflexivity|lia].
  - rewrite Hfin.
    assert (He20 : e2 <= 0).
    { destruct (Z.eq_dec e2 (f + 1)) as [He21|]; [|lia].
      destruct (Z_lt_le_dec f 0) as [|Hf00]; [lia|exfalso].
      assert (f = 0) by lia.
      assert (- e - k = 0) by (unfold k, E in *; lia).
      assert (R = 1) by (unfold R; replace (- e - k) with 0 by lia; reflexivity).
      rewrite (Hren He21) in Hm1. lia. }
    assert (Hdig0 : e2 = 0 -> Zpos (digits2_pos m2) = 53).
    { intros He2z. apply Hdig. change (Zpos M / 2 ^ (f - E)) with q.
      destruct (Z.eq_dec e2 (f + 1)) as [He21|He2f].
      - rewrite (Hren He21) in Hr. change (2 ^ 53) with (2 ^ 52 + 2 ^ 52) in Hr.
        change (2 ^ 52) with 4503599627370496 in *. lia.
      - assert (f = 0) by lia.
        assert (Hkd : k = d - 53) by (unfold k; lia).
        unfold q. apply Z.div_le_lower_bound; [exact HK|].
        unfold K. rewrite <- Z.pow_add_r by lia.
        replace (k + 52) with (d - 1) by lia. exact HMlo. }
    destruct (floor_nonneg m2 e2 He20 Hdig0) as (Q & -> & HQ0 & HQ).
    exists Q. split; [reflexivity|]. split; [exact HQ0|].
    destruct (Z_lt_le_dec Q N) as [|HQN]; [assumption|exfalso].
    set (S2 := 2 ^ (- e2)) in *.
    set (T := 2 ^ (e2 - f)) in *.
    assert (HS2 : 0 < S2) by (apply Z.pow_pos_nonneg; lia).
    assert (HT : 0 < T) by (apply Z.pow_pos_nonneg; lia).
    assert (HST : S2 * T = 2 ^ (- en) * R).
    { unfold S2, T, R. rewrite <- !Z.pow_add_r by (unfold k, E in *; lia).
      f_equal. unfold k, E. lia. }
    assert (H1 : N * (S2 * T) <= Q * (S2 * T))
      by (apply Z.mul_le_mono_nonneg_r; nia).
    assert (H2 : Q * S2 * T <= Zpos m2 * T)
      by (apply Z.mul_le_mono_nonneg_r; lia).
    assert (H3 : N * (S2 * T) = Zpos mn * R)
      by (rewrite HST, Hmn; ring).
    lia.
Qed.

(** [Math.random() * N], floored, for every value [Math.random] may
    return. *)
Lemma floor_mul_unit_fraction (u : number) (N : Z) :
  is_unit_fraction u = true -> 1 <= N < 2 ^ 53 ->
  exists Q, floor (mul u (ofZ N)) = ofZ Q /\ 0 <= Q < N.
Proof.
  intros Hu HN.
  destruct u as [[|]|si| |[|] m e]; try discriminate Hu.
  - destruct (ofZ_finite N) as (mn & en & EN & _); [lia|lia|].
    replace (N <? 0) with false in EN by (symmetry; apply Z.ltb_ge; lia).
    exists 0. rewrite EN. split; [reflexivity|lia].
  - destruct (unit_fraction_bounds m e Hu) as [H53 HA].
    apply floor_mul_unit_below; assumption.
Qed.

End UnitFraction.

(** ** random, drawPattern and handler, further *)

(** X1. For safe integers [min <= max] whose span is safe too, and for
    every number [Math.random] may return (positive sign, at least [0],
    less than [1]), [random(min, max)] is an integer [r] with
    [min <= r <= max], and one more call of [Math.random] has been made. *)
Theorem random_safe_integers_in_range
  (Math_random : nat -> Num.number) (min max : Z) (n : nat) :
  NumSpec.is_unit_fraction (Math_random n) = true ->
  - Num.MAX_SAFE_INTEGER <= min ->
  max <= Num.MAX_SAFE_INTEGER ->
  min <= max ->
  max - min + 1 <= Num.MAX_SAFE_INTEGER ->
  exists r : Z,
    random Math_random (Num.ofZ min) (Num.ofZ max) n = (Num.ofZ r, S n) /\
    min <= r <= max.
Proof.
  unfold Num.MAX_SAFE_INTEGER. intros Hu Hmin Hmax Hle Hspan.
  assert (Hn : Num.add (Num.sub (Num.ofZ max) (Num.ofZ min)) Num.one
               = Num.ofZ (max - min + 1)).
  { rewrite NumFacts.sub_int by lia. unfold Num.one.
    apply NumFacts.add_int; lia. }
  destruct (UnitFraction.floor_mul_unit_fraction (Math_random n) (max - min + 1) Hu)
    as (Q & HQ & HQr); [lia|].
  exists (Q + min). split; [|lia].
  unfold random. rewrite Hn, HQ. f_equal. apply NumFacts.add_int; lia.
Qed.

Lemma small_index_facts (b : Z) :
  0 <= b < 6 ->
  Num.toZ (Num.ofZ b) = Some b /\
  forall e, 0 <= e < 6 ->
            Num.strict_eq (Num.ofZ b) (Num.ofZ e) = (b =? e).
Proof.
  intros Hb.
  assert (H : small_index_ok b = true).
  { apply (forallb_Z_range small_index_ok 6); [vm_compute; reflexivity|exact Hb]. }
  unfold small_index_ok in H. apply andb_true_iff in H. destruct H as [H1 H2].
  split.
  - destruct (Num.toZ (Num.ofZ b)) as [z|]; [|discriminate].
    apply Z.eqb_eq in H1. congruence.
  - intros e He.
    pose proof (forallb_Z_range _ 6 H2 e He) as H3. cbv beta in H3.
    apply Bool.eqb_prop in H3. exact H3.
Qed.

Lemma index_small {A : Type} (l : list A) (b : Z) :
  0 <= b < 6 -> index l (Num.ofZ b) = nth_error l (Z.to_nat b).
Proof.
  intros Hb. unfold index. destruct (small_index_facts b Hb) as [-> _].
  destruct (Z.leb_spec 0 b); [reflexivity|lia].
Qed.

Lemma colors_NoDup : NoDup (colors settings).
Proof.
  cbn. repeat constructor; cbn; intuition discriminate.
Qed.

Section InBounds.

Variable Math_random : nat -> Num.number.
Hypothesis Hok : random_source_ok Math_random.

Lemma color_index_draw (n : nat) :
  exists r,
    random Math_random Num.zero
      (Num.sub (length_ (colors settings)) Num.one) n = (Num.ofZ r, S n) /\
    0 <= r <= 4.
Proof.
  change (Num.sub (length_ (colors settings)) Num.one) with (Num.ofZ 4).
  change Num.zero with (Num.ofZ 0).
  apply random_safe_integers_in_range;
    [apply Hok| | | |]; unfold Num.MAX_SAFE_INTEGER; lia.
Qed.

Lemma offset_index_draw (n : nat) :
  exists r,
    random Math_random Num.zero
      (Num.sub (length_ (offsets settings)) Num.one) n = (Num.ofZ r, S n) /\
    0 <= r <= 5.
Proof.
  change (Num.sub (length_ (offsets settings)) Num.one) with (Num.ofZ 5).
  change Num.zero with (Num.ofZ 0).
  apply random_safe_integers_in_range;
    [apply Hok| | | |]; unfold Num.MAX_SAFE_INTEGER; lia.
Qed.

Lemma pickElementColor_in_bounds (fuel : nat) (bg : Num.number) (e : Z)
  (n : nat) (el' : Num.number) (n' : nat) :
  0 <= e <= 4 ->
  pickElementColor Math_random fuel settings bg (Num.ofZ e) n = Some (el', n') ->
  exists e', el' = Num.ofZ e' /\ 0 <= e' <= 4.
Proof.
  revert e n. induction fuel as [|fuel IH]; intros e n He H.
  - cbn [pickElementColor] in H.
    destruct (Num.strict_eq (Num.ofZ e) bg); [discriminate|].
    injection H as <- _. exists e. split; [reflexivity|exact He].
  - destruct (Num.strict_eq (Num.ofZ e) bg) eqn:E.
    + rewrite pickElementColor_step in H by exact E.
      unfold attempt in H. rewrite Nat.add_0_r in H.
      destruct (color_index_draw n) as (r & Hr & Hr4).
      rewrite Hr in H. cbn [fst] in H. exact (IH r (S n) Hr4 H).
    + rewrite pickElementColor_stop in H by exact E.
      injection H as <- _. exists e. split; [reflexivity|exact He].
Qed.

Lemma chooseCell_palette (fuel : nat) (i j : Z) (n : nat) (c : Cell) (n' : nat) :
  chooseCell Math_random fuel settings i j n = Some (c, n') ->
  palette_cell c.
Proof.
  intros H. pose proof (chooseCell_differs _ _ _ _ _ _ _ _ H) as Hdiff.
  unfold chooseCell in H.
  destruct (color_index_draw n) as (b & Hb & Hb4). rewrite Hb in H.
  destruct (color_index_draw (S n)) as (e & He & He4). rewrite He in H.
  destruct (pickElementColor Math_random fuel settings (Num.ofZ b) (Num.ofZ e)
              (S (S n))) as [[el n3]|] eqn:Epick; [|discriminate].
  destruct (pickElementColor_in_bounds _ _ _ _ _ _ He4 Epick) as (e' & -> & He'4).
  destruct (offset_index_draw n3) as (oi & Hoi & Hoi5). rewrite Hoi in H.
  injection H as <- _.
  cbn [elementColorIndex bgColorIndex] in Hdiff.
  destruct (small_index_facts e' ltac:(lia)) as [_ Heq].
  rewrite (Heq b ltac:(lia)) in Hdiff. apply Z.eqb_neq in Hdiff.
  assert (Hcb : exists cb, index (colors settings) (Num.ofZ b) = Some cb
                           /\ nth_error (colors settings) (Z.to_nat b) = Some cb).
  { rewrite index_small by lia.
    destruct (nth_error (colors settings) (Z.to_nat b)) as [cb|] eqn:Ecb;
      [exists cb; auto|].
    apply nth_error_None in Ecb. cbn in Ecb. lia. }
  assert (Hce : exists ce, index (colors settings) (Num.ofZ e') = Some ce
                           /\ nth_error (colors settings) (Z.to_nat e') = Some ce).
  { rewrite index_small by lia.
    destruct (nth_error (colors settings) (Z.to_nat e')) as [ce|] eqn:Ece;
      [exists ce; auto|].
    apply nth_error_None in Ece. cbn in Ece. lia. }
  assert (Ho : exists o, index (offsets settings) (Num.ofZ oi) = Some o
                         /\ In o (offsets settings)).
  { rewrite index_small by lia.
    destruct (nth_error (offsets settings) (Z.to_nat oi)) as [o|] eqn:Eo.
    - exists o. split; [reflexivity|]. exact (nth_error_In _ _ Eo).
    - apply nth_error_None in Eo. cbn in Eo. lia. }
  destruct Hcb as (cb & Hcb & Ncb). destruct Hce as (ce & Hce & Nce).
  destruct Ho as (o & Ho & Hin).
  exists cb, ce. split; [exact Hcb|]. split; [exact Hce|]. split.
  - intros ->.
    assert (Z.to_nat b = Z.to_nat e'); [|lia].
    apply (proj1 (NoDup_nth_error (colors settings)) colors_NoDup);
      [cbn; lia|congruence].
  - change (In match index (offsets settings) (Num.ofZ oi) with
               | Some o => Num.div (Num.ofZ (boxSize settings)) o
               | None => S754_nan
               end
              (map (Num.div (Num.ofZ (boxSize settings))) (offsets settings))).
    rewrite Ho. apply in_map. exact Hin.
Qed.

End InBounds.

Lemma forLoop_invariant_range {St : Type} (P : St -> Prop)
  (n : nat) (i0 : Z) (body : Z -> St -> option St) (s s' : St) :
  (forall i s s',
     i0 <= i < i0 + Z.of_nat n -> P s -> body i s = Some s' -> P s') ->
  P s -> forLoop n i0 body s = Some s' -> P s'.
Proof.
  revert i0 s. induction n as [|n IH]; intros i0 s Hbody Hs Hrun.
  - cbn [forLoop] in Hrun. injection Hrun as <-. exact Hs.
  - cbn [forLoop] in Hrun. destruct (body i0 s) as [s1|] eqn:E; [|discriminate].
    apply (IH (i0 + 1) s1); [|apply (Hbody i0 s s1); [lia|exact Hs|exact E]|exact Hrun].
    intros i t t' Hi. apply Hbody. lia.
Qed.

Lemma forLoop_trace {St A : Type} (g : St -> list A) (h : Z -> list A)
  (n : nat) (i0 : Z) (body : Z -> St -> option St) (s s' : St) :
  (forall i s s', body i s = Some s' -> g s' = g s ++ h i) ->
  forLoop n i0 body s = Some s' ->
  g s' = g s ++ flat_map h (zrange n i0).
Proof.
  intros Hbody. revert i0 s. induction n as [|n IH]; intros i0 s Hrun.
  - cbn [forLoop] in Hrun. injection Hrun as <-. cbn. rewrite app_nil_r. reflexivity.
  - cbn [forLoop] in Hrun. destruct (body i0 s) as [s1|] eqn:E; [|discriminate].
    rewrite (IH _ _ Hrun), (Hbody _ _ _ E). cbn [zrange flat_map].
    rewrite app_assoc. reflexivity.
Qed.

Lemma chooseCell_origin (Math_random : nat -> Num.number) (fuel : nat)
  (st : Settings) (i j : Z) (n : nat) (c : Cell) (n' : nat) :
  chooseCell Math_random fuel st i j n = Some (c, n') ->
  origin c = (Num.ofZ (Z.rem (i * boxSize st) 400),
              Num.ofZ (Z.rem (j * boxSize st) 400)).
Proof.
  unfold chooseCell.
  destruct (random Math_random Num.zero
              (Num.sub (length_ (colors st)) Num.one) n) as [bg n1].
  destruct (random Math_random Num.zero
              (Num.sub (length_ (colors st)) Num.one) n1) as [el n2].
  destruct (pickElementColor Math_random fuel st bg el n2) as [[el' n3]|];
    [|discriminate].
  destruct (random Math_random Num.zero
              (Num.sub (length_ (offsets st)) Num.one) n3) as [oi n4].
  intros H. injection H as <- _. reflexivity.
Qed.

(** X3. Whenever [drawPattern] returns, the cells it has drawn are, in
    order, those at the origins [(40 i, 40 j)] for [i = 0..9] (outer loop)
    and [j = 0..9] (inner loop): each tile of the 10 x 10 grid exactly once,
    column by column, and the wrap modulo 400 never takes effect. *)
Theorem drawPattern_tile_origins
  {Image : Type} (Math_random : nat -> Num.number) (fuel : nat)
  (c : Canvas Image) (n : nat) (d : Drawing Image) :
  drawPattern Math_random fuel c n = Some d ->
  map origin (cells d)
  = flat_map
      (fun i => map (fun j => (Num.ofZ (40 * i), Num.ofZ (40 * j)))
                    (zrange 10 0))
      (zrange 10 0).
Proof.
  unfold drawPattern, drawPatternWith. intros H.
  apply (forLoop_trace
           (fun d => map origin (cells d))
           (fun i => flat_map
                       (fun j => [(Num.ofZ (Z.rem (i * boxSize settings) 400),
                                   Num.ofZ (Z.rem (j * boxSize settings) 400))])
                       (zrange (Z.to_nat (gridSize settings)) 0))) in H.
  - cbn [cells map app] in H. rewrite H. vm_compute. reflexivity.
  - intros i s s' Hi.
    apply (forLoop_trace
             (fun d => map origin (cells d))
             (fun j => [(Num.ofZ (Z.rem (i * boxSize settings) 400),
                         Num.ofZ (Z.rem (j * boxSize settings) 400))])) in Hi;
      [exact Hi|].
    intros j t t' Hj. unfold drawCell in Hj.
    destruct (chooseCell Math_random fuel settings i j (drawn t))
      as [[cl m]|] eqn:E; [|discriminate].
    injection Hj as <-. cbn [cells]. rewrite map_app. cbn [map].
    rewrite (chooseCell_origin _ _ _ _ _ _ _ _ E). reflexivity.
Qed.

(** X2. With [Math.random] returning numbers in [0, 1), no array lookup of
    [drawPattern] goes out of bounds: in every cell drawn, the background
    and the element index select two different entries of [colors] (never
    [undefined]) and the offset is [boxSize] divided by an entry of
    [offsets] (never [NaN]). *)
Theorem drawPattern_lookups_in_bounds
  {Image : Type} (Math_random : nat -> Num.number) (fuel : nat)
  (c : Canvas Image) (n : nat) (d : Drawing Image) :
  random_source_ok Math_random ->
  drawPattern Math_random fuel c n = Some d ->
  Forall palette_cell (cells d).
Proof.
  intros Hok H. unfold drawPattern, drawPatternWith in H.
  apply (forLoop_invariant (fun d => Forall palette_cell (cells d))
           _ _ _ _ _) in H; [exact H| |constructor].
  intros i s s' Hs Hi.
  apply (forLoop_invariant (fun d => Forall palette_cell (cells d))
           _ _ _ _ _) in Hi; [exact Hi| |exact Hs].
  intros j t t' Ht Hj. unfold drawCell in Hj.
  destruct (chooseCell Math_random fuel settings i j (drawn t))
    as [[cl m]|] eqn:E; [|discriminate].
  injection Hj as <-. cbn [cells].
  apply Forall_app. split; [exact Ht|].
  constructor; [|constructor].
  exact (chooseCell_palette Math_random Hok _ _ _ _ _ _ E).
Qed.

Lemma placed_table :
  forallb placed_ok (map Z.of_nat (seq 0 10)) = true.
Proof. vm_compute. reflexivity. Qed.

Lemma drawn_within_tile_placed (Image : Type) (c : Cell) (i j : Z) (o : Num.number) :
  origin c = origin (placed i j o) -> offset c = offset (placed i j o) ->
  tile_in_canvas c = tile_in_canvas (placed i j o) /\
  drawn_within_tile Image c = drawn_within_tile unit (placed i j o).
Proof.
  destruct c as [bg el cx cy co]. unfold origin. cbn [x y offset placed].
  intros Ho Hoff. injection Ho as -> ->. subst co. split; reflexivity.
Qed.

(** X4. With [Math.random] returning numbers in [0, 1), every tile lies
    inside the 400 x 400 canvas and every point passed to [fillRect],
    [moveTo] or [lineTo] for a cell lies inside the tile of that cell. *)
Theorem drawPattern_draws_within_tiles
  {Image : Type} (Math_random : nat -> Num.number) (fuel : nat)
  (c : Canvas Image) (n : nat) (d : Drawing Image) :
  random_source_ok Math_random ->
  drawPattern Math_random fuel c n = Some d ->
  Forall (cell_in_tile Image) (cells d).
Proof.
  intros Hok H. unfold drawPattern, drawPatternWith in H.
  apply (forLoop_invariant_range
           (fun d => Forall (cell_in_tile Image) (cells d)) _ _ _ _ _) in H;
    [exact H| |constructor].
  intros i s s' Hirange Hs Hi.
  apply (forLoop_invariant_range
           (fun d => Forall (cell_in_tile Image) (cells d)) _ _ _ _ _) in Hi;
    [exact Hi| |exact Hs].
  intros j t t' Hjrange Ht Hj. unfold drawCell in Hj.
  destruct (chooseCell Math_random fuel settings i j (drawn t))
    as [[cl m]|] eqn:E; [|discriminate].
  injection Hj as <-. cbn [cells].
  apply Forall_app. split; [exact Ht|].
  constructor; [|constructor].
  pose proof (chooseCell_origin _ _ _ _ _ _ _ _ E) as Horigin.
  destruct (chooseCell_palette Math_random Hok _ _ _ _ _ _ E)
    as (_ & _ & _ & _ & _ & Hoff).
  apply in_map_iff in Hoff. destruct Hoff as (o & Ho & Hin).
  destruct (drawn_within_tile_placed Image cl i j o Horigin (eq_sym Ho))
    as [Htile Hdrawn].
  change (Z.of_nat (Z.to_nat (gridSize settings))) with 10 in Hirange, Hjrange.
  pose proof (forallb_Z_range placed_ok 10 placed_table i ltac:(lia)) as Hi10.
  unfold placed_ok in Hi10.
  pose proof (forallb_Z_range _ 10 Hi10 j ltac:(lia)) as Hj10. cbv beta in Hj10.
  rewrite forallb_forall in Hj10. specialize (Hj10 o Hin).
  apply andb_true_iff in Hj10. destruct Hj10 as [H1 H2].
  split; congruence.
Qed.

(** X5. What the colour-selection loop returns: the element index it was
    entered with, untouched, when that already differs from the background
    index; otherwise the first later draw that differs, after exactly as
    many calls of [Math.random] as it took to get there. *)
Theorem pickElementColor_first_differing
  (Math_random : nat -> Num.number) (st : Settings)
  (bg el : Num.number) (n fuel : nat) (r : Num.number * nat) :
  pickElementColor Math_random fuel st bg el n = Some r ->
  (Num.strict_eq el bg = false /\ r = (el, n)) \/
  (Num.strict_eq el bg = true /\
   exists k,
     (k < fuel)%nat /\
     r = (attempt Math_random st n k, (n + k + 1)%nat) /\
     (forall j, (j < k)%nat ->
                Num.strict_eq (attempt Math_random st n j) bg = true) /\
     Num.strict_eq (attempt Math_random st n k) bg = false).
Proof.
  revert el n. induction fuel as [|fuel IH]; intros el n H.
  - cbn [pickElementColor] in H.
    destruct (Num.strict_eq el bg) eqn:E; [discriminate|].
    left. split; [reflexivity|]. congruence.
  - destruct (Num.strict_eq el bg) eqn:E.
    + right. split; [reflexivity|].
      rewrite pickElementColor_step in H by exact E.
      destruct (IH _ _ H) as [[Hd Hr]|(Hs & k & Hk & Hr & Hall & Hd)].
      * exists 0%nat. split; [lia|]. split.
        -- rewrite Hr. f_equal. lia.
        -- split; [intros j Hj; lia|exact Hd].
      * exists (S k). split; [lia|]. split.
        -- rewrite Hr, attempt_shift. f_equal. lia.
        -- split.
           ++ intros [|j] Hj; [exact Hs|].
              rewrite <- attempt_shift. apply Hall. lia.
           ++ rewrite <- attempt_shift. exact Hd.
    + left. split; [reflexivity|].
      rewrite pickElementColor_stop in H by exact E. congruence.
Qed.

Lemma drawPattern_canvas
  {Image : Type} (Math_random : nat -> Num.number) (fuel : nat)
  (c : Canvas Image) (n : nat) (d : Drawing Image) :
  drawPattern Math_random fuel c n = Some d ->
  width (canvas d) = width c /\
  height (canvas d) = height c /\
  calls (canvas d) = calls c ++ flat_map (paintCell settings) (cells d).
Proof.
  unfold drawPattern, drawPatternWith. intros H.
  apply (forLoop_invariant
           (fun d => width (canvas d) = width c /\
                     height (canvas d) = height c /\
                     calls (canvas d)
                     = calls c ++ flat_map (paintCell settings) (cells d))
           _ _ _ _ _) in H; [exact H| |].
  - intros i s s' Hs Hi.
    apply (forLoop_invariant
             (fun d => width (canvas d) = width c /\
                       height (canvas d) = height c /\
                       calls (canvas d)
                       = calls c ++ flat_map (paintCell settings) (cells d))
             _ _ _ _ _) in Hi; [exact Hi| |exact Hs].
    intros j t t' (Hw & Hh & Hc) Hj. unfold drawCell in Hj.
    destruct (chooseCell Math_random fuel settings i j (drawn t)) as [[cl m]|];
      [|discriminate].
    injection Hj as <-. cbn [cells canvas draw calls width height].
    split; [exact Hw|]. split; [exact Hh|].
    rewrite Hc, flat_map_app, <- app_assoc. cbn [flat_map].
    rewrite app_nil_r. reflexivity.
  - cbn [cells canvas flat_map]. rewrite app_nil_r. auto.
Qed.

Lemma watermark_placement :
  Num.add (Num.div (Num.sub (Num.ofZ 400) (Num.ofZ 300)) (Num.ofZ 2))
          (Num.div (Num.ofZ 300) (Num.ofZ 2)) = Num.ofZ 200 /\
  Num.add (Num.sub (Num.ofZ 400) (Num.ofZ 180))
          (Num.div (Num.ofZ 180) (Num.ofZ 2)) = Num.ofZ 310 /\
  Num.div (SFopp (Num.ofZ 300)) (Num.ofZ 2) = Num.ofZ (- 150) /\
  Num.div (SFopp (Num.ofZ 180)) (Num.ofZ 2) = Num.ofZ (- 90).
Proof. repeat split; vm_compute; reflexivity. Qed.

(** X6. The success path of the handler: with [address] present, the
    pattern drawn and the watermark loaded, it sets the content type, sends
    the encoding of the canvas and logs nothing; the canvas is still
    400 x 400 and has received the calls of the pattern, then the gradient
    over the whole canvas, then the watermark drawn 300 x 180 around
    [(200, 310)] between [save] and [restore]. *)
Theorem handler_success_composition
  {Image Buffer Error : Type} (toBuffer : Canvas Image -> Buffer)
  (Math_random : nat -> Num.number) (loadImage : string -> Error + Image)
  (fuel : nat) (q : Query) (d : Drawing Image) (baseImage : Image) :
  falsy (address q) = false ->
  drawPattern Math_random fuel (createCanvas Image 400 400) 0 = Some d ->
  loadImage imageUrl = inr baseImage ->
  exists o ctx,
    handler toBuffer Math_random loadImage fuel q = Some o /\
    surface o = Some ctx /\
    response o = [SetHeader "Content-Type" "image/png"; Send (toBuffer ctx)] /\
    consoleErrors o = [] /\
    randomCalls o = drawn d /\
    width ctx = Num.ofZ 400 /\ height ctx = Num.ofZ 400 /\
    calls ctx
    = flat_map (paintCell settings) (cells d) ++ finishing baseImage.
Proof.
  intros Hf Hd Himg.
  destruct (drawPattern_canvas _ _ _ _ _ Hd) as (Hw & Hh & Hc).
  cbn [createCanvas width height calls app] in Hw, Hh, Hc.
  destruct watermark_placement as (P1 & P2 & P3 & P4).
  unfold handler. rewrite Hf. cbv zeta. rewrite Hd, Himg.
  eexists _, _. split; [reflexivity|].
  cbn [surface response consoleErrors randomCalls draw width height calls].
  split; [reflexivity|]. split; [reflexivity|]. split; [reflexivity|].
  split; [reflexivity|].
  split; [exact Hw|]. split; [exact Hh|].
  unfold draw. cbn [calls width height].
  rewrite Hw, Hh, Hc, P1, P2, P3, P4, <- app_assoc. reflexivity.
Qed.


(** ** SeededRandom, further *)

Module XorshiftFacts.
Import Int32 Int32Facts.

Lemma toInt32_idem (z : Z) : toInt32 (toInt32 z) = toInt32 z.
Proof. apply toInt32_id, toInt32_range. Qed.

Lemma toInt32_wrap (z k : Z) : toInt32 (z + k * 2 ^ 32) = toInt32 z.
Proof. unfold toInt32. rewrite Z.mod_add by lia. reflexivity. Qed.

Lemma xorshift_toInt32 (s : Z) :
  SeededRandom.xorshift (toInt32 s) = SeededRandom.xorshift s.
Proof.
  unfold SeededRandom.xorshift, xor, shl, sar. rewrite !toInt32_idem.
  reflexivity.
Qed.

Lemma int32_ext (a b : Z) :
  - 2 ^ 31 <= a < 2 ^ 31 -> - 2 ^ 31 <= b < 2 ^ 31 ->
  (forall i, 0 <= i < 32 -> Z.testbit a i = Z.testbit b i) -> a = b.
Proof.
  intros Ha Hb H. apply Z.bits_inj'. intros n Hn.
  destruct (Z_lt_le_dec n 32) as [Hlt|Hge]; [apply H; lia|].
  rewrite (int32_sign_bits a n), (int32_sign_bits b n) by (assumption || lia).
  apply H. lia.
Qed.

Lemma lnot_range (x : Z) : - 2 ^ 31 <= x < 2 ^ 31 -> - 2 ^ 31 <= Z.lnot x < 2 ^ 31.
Proof. unfold Z.lnot. lia. Qed.

(** [x ^= x << 13] is undone by [y ^ (y << 13) ^ (y << 26)]. *)
Lemma shl13_inverse (y : Z) :
  - 2 ^ 31 <= y < 2 ^ 31 ->
  let s' := xor (xor y (shl y 13)) (shl y 26) in
  xor s' (shl s' 13) = y.
Proof.
  intros Hy s'. apply int32_ext; [apply toInt32_range|exact Hy|].
  intros i Hi. unfold s'.
  rewrite xor_testbit, shl_testbit by lia.
  rewrite !xor_testbit, !shl_testbit by lia.
  destruct (Z.ltb_spec i 13) as [H13|H13].
  - destruct (Z.ltb_spec i 26); [|lia].
    destruct (Z.testbit y i); reflexivity.
  - rewrite !xor_testbit, !shl_testbit by lia.
    destruct (Z.ltb_spec (i - 13) 26); [|lia].
    destruct (Z.ltb_spec i 26) as [H26|H26].
    + destruct (Z.ltb_spec (i - 13) 13); [|lia].
      destruct (Z.testbit y i), (Z.testbit y (i - 13)); reflexivity.
    + destruct (Z.ltb_spec (i - 13) 13); [lia|].
      replace (i - 13 - 13) with (i - 26) by lia.
      destruct (Z.testbit y i), (Z.testbit y (i - 13)), (Z.testbit y (i - 26));
        reflexivity.
Qed.

(** [x ^ (x >> 17)] with the sign-propagating shift does not tell [x] from
    its complement. *)
Lemma sar17_complement (x : Z) :
  xor (Z.lnot x) (sar (Z.lnot x) 17) = xor x (sar x 17).
Proof.
  apply int32_ext; [apply toInt32_range|apply toInt32_range|].
  intros i Hi.
  rewrite !xor_testbit, !sar_testbit, !Z.lnot_spec by lia.
  destruct (Z.testbit x i), (Z.testbit x (Z.min (i + 17) 31)); reflexivity.
Qed.

End XorshiftFacts.

(** X8. [next] and [nextRange] read the seed through [ToInt32]: seeds that
    differ by a multiple of [2^32] give the same state and the same
    number. *)
Theorem next_depends_on_ToInt32 (seed k : Z) (min max : Num.number) :
  SeededRandom.next (seed + k * 2 ^ 32) = SeededRandom.next seed /\
  SeededRandom.next (Int32.toInt32 seed) = SeededRandom.next seed /\
  SeededRandom.nextRange min max (seed + k * 2 ^ 32)
  = SeededRandom.nextRange min max seed.
Proof.
  assert (H : SeededRandom.xorshift (seed + k * 2 ^ 32)
              = SeededRandom.xorshift seed).
  { rewrite <- (XorshiftFacts.xorshift_toInt32 (seed + k * 2 ^ 32)).
    rewrite XorshiftFacts.toInt32_wrap. apply XorshiftFacts.xorshift_toInt32. }
  assert (Hn : SeededRandom.next (seed + k * 2 ^ 32) = SeededRandom.next seed)
    by (rewrite !next_eq, H; reflexivity).
  split; [exact Hn|]. split.
  - rewrite !next_eq, XorshiftFacts.xorshift_toInt32. reflexivity.
  - unfold SeededRandom.nextRange. rewrite Hn. reflexivity.
Qed.

(** X9. The state update of [next] is not injective: because [>>] repeats
    the sign bit, every state shares its successor, and so every later
    number, with another 32-bit state. *)
Theorem xorshift_not_injective (seed : Z) :
  exists seed',
    - 2 ^ 31 <= seed' < 2 ^ 31 /\
    seed' <> Int32.toInt32 seed /\
    SeededRandom.next seed' = SeededRandom.next seed.
Proof.
  set (x := Int32.xor seed (Int32.shl seed 13)).
  assert (Hx : - 2 ^ 31 <= x < 2 ^ 31) by apply Int32Facts.toInt32_range.
  pose proof (XorshiftFacts.shl13_inverse (Z.lnot x)
                (XorshiftFacts.lnot_range x Hx)) as Hinv.
  cbv zeta in Hinv.
  set (seed' := Int32.xor (Int32.xor (Z.lnot x) (Int32.shl (Z.lnot x) 13))
                          (Int32.shl (Z.lnot x) 26)) in *.
  exists seed'. split; [apply Int32Facts.toInt32_range|]. split.
  - intros Heq.
    assert (Hs : Int32.xor seed' (Int32.shl seed' 13) = x).
    { rewrite Heq. unfold x, Int32.xor, Int32.shl.
      rewrite !XorshiftFacts.toInt32_idem. reflexivity. }
    rewrite Hinv in Hs. unfold Z.lnot in Hs. lia.
  - assert (Hxs : SeededRandom.xorshift seed' = SeededRandom.xorshift seed).
    { unfold SeededRandom.xorshift. rewrite Hinv.
      rewrite XorshiftFacts.sar17_complement. reflexivity. }
    rewrite !next_eq, Hxs. reflexivity.
Qed.

Lemma xorshift_zero : SeededRandom.xorshift 0 = 0.
Proof. reflexivity. Qed.

(** X10. A state that [xorshift] sends to [0] is absorbing: every call of
    [next] from then on returns [0]. All multiples of [2^32] are such
    seeds, and they are not the only ones: [4227866623] is another. *)
Theorem zero_state_absorbs :
  (forall seed n,
     SeededRandom.xorshift seed = 0 ->
     Forall (fun r => r = Num.zero) (outputs n seed)) /\
  (forall seed, Int32.toInt32 seed = 0 -> SeededRandom.xorshift seed = 0) /\
  (SeededRandom.xorshift 4227866623 = 0 /\ Int32.toInt32 4227866623 <> 0).
Proof.
  split; [|split].
  - intros seed n H. revert seed H. induction n as [|n IH]; intros seed H.
    + constructor.
    + cbn [outputs]. rewrite next_eq, H. constructor; [reflexivity|].
      apply IH. exact xorshift_zero.
  - intros seed H. rewrite <- XorshiftFacts.xorshift_toInt32, H.
    exact xorshift_zero.
  - split; [vm_compute; reflexivity|vm_compute; discriminate].
Qed.

Lemma generateSeed_input
  (address : JSString.jsstring) (data : option JSString.jsstring) :
  generateSeed address data = generateSeed (seed_input address data) None.
Proof. destruct data as [[|c d]|]; reflexivity. Qed.

(** X11. [generateSeed] only sees the joined string: for a non-empty [c],
    the pairs [(a-b, c)] and [(a, b-c)] have the same seed, and so have
    [(a, c)] and [(a-c, undefined)]. *)
Theorem generateSeed_dash_collisions (a b c : JSString.jsstring) :
  c <> [] ->
  generateSeed (a ++ JSString.lit "-" ++ b) (Some c)
  = generateSeed a (Some (b ++ JSString.lit "-" ++ c)) /\
  generateSeed a (Some c) = generateSeed (a ++ JSString.lit "-" ++ c) None.
Proof.
  intros Hc. destruct c as [|c0 c]; [congruence|].
  split.
  - rewrite (generateSeed_input (a ++ JSString.lit "-" ++ b)),
            (generateSeed_input a).
    f_equal. cbn [seed_input].
    assert (Hne : exists h t, b ++ JSString.lit "-" ++ c0 :: c = h :: t).
    { destruct b as [|b0 b]; cbn; eauto. }
    destruct Hne as (h & t & Hne). rewrite Hne, <- Hne.
    rewrite <- !app_assoc. reflexivity.
  - rewrite (generateSeed_input a). reflexivity.
Qed.

(** ** Instances *)

Lemma random_safe_integers_in_range_witness :
  NumSpec.is_unit_fraction (sourceA 1) = true /\
  - Num.MAX_SAFE_INTEGER <= 0 /\
  4 <= Num.MAX_SAFE_INTEGER /\
  0 <= 4 /\
  4 - 0 + 1 <= Num.MAX_SAFE_INTEGER /\
  exists r : Z,
    random sourceA (Num.ofZ 0) (Num.ofZ 4) 1 = (Num.ofZ r, 2%nat) /\
    0 <= r <= 4.
Proof.
  assert (H0 : NumSpec.is_unit_fraction (sourceA 1) = true) by reflexivity.
  assert (H1 : - Num.MAX_SAFE_INTEGER <= 0) by (vm_compute; discriminate).
  assert (H2 : 4 <= Num.MAX_SAFE_INTEGER) by (vm_compute; discriminate).
  assert (H3 : 0 <= 4) by lia.
  assert (H4 : 4 - 0 + 1 <= Num.MAX_SAFE_INTEGER) by (vm_compute; discriminate).
  split; [exact H0|]. split; [exact H1|]. split; [exact H2|].
  split; [exact H3|]. split; [exact H4|].
  exact (random_safe_integers_in_range sourceA 0 4 1 H0 H1 H2 H3 H4).
Defined.

Lemma drawPattern_lookups_in_bounds_witness :
  random_source_ok sourceA /\
  exists d : Drawing unit,
    drawPattern sourceA 0 (createCanvas unit 400 400) 0 = Some d /\
    Forall palette_cell (cells d).
Proof.
  assert (Hok : random_source_ok sourceA).
  { intros n. unfold sourceA. destruct (Nat.even n); reflexivity. }
  split; [exact Hok|].
  destruct (drawPattern sourceA 0 (createCanvas unit 400 400) 0) as [d|] eqn:E.
  - exists d. split; [reflexivity|].
    exact (drawPattern_lookups_in_bounds sourceA 0 _ 0 d Hok E).
  - vm_compute in E. discriminate E.
Defined.

Lemma drawPattern_tile_origins_witness :
  exists d : Drawing unit,
    drawPattern sourceA 0 (createCanvas unit 400 400) 0 = Some d /\
    map origin (cells d)
    = flat_map
        (fun i => map (fun j => (Num.ofZ (40 * i), Num.ofZ (40 * j)))
                      (zrange 10 0))
        (zrange 10 0).
Proof.
  destruct (drawPattern sourceA 0 (createCanvas unit 400 400) 0) as [d|] eqn:E.
  - exists d. split; [reflexivity|].
    exact (drawPattern_tile_origins sourceA 0 _ 0 d E).
  - vm_compute in E. discriminate E.
Defined.

Lemma drawPattern_draws_within_tiles_witness :
  random_source_ok sourceA /\
  exists d : Drawing unit,
    drawPattern sourceA 0 (createCanvas unit 400 400) 0 = Some d /\
    Forall (cell_in_tile unit) (cells d).
Proof.
  assert (Hok : random_source_ok sourceA).
  { intros n. unfold sourceA. destruct (Nat.even n); reflexivity. }
  split; [exact Hok|].
  destruct (drawPattern sourceA 0 (createCanvas unit 400 400) 0) as [d|] eqn:E.
  - exists d. split; [reflexivity|].
    exact (drawPattern_draws_within_tiles sourceA 0 _ 0 d Hok E).
  - vm_compute in E. discriminate E.
Defined.

Lemma pickElementColor_first_differing_witness :
  pickElementColor sourceA 1 settings (Num.ofZ 0) (Num.ofZ 0) 1
  = Some (Num.ofZ 4, 2%nat) /\
  ((Num.strict_eq (Num.ofZ 0) (Num.ofZ 0) = false /\
    (Num.ofZ 4, 2%nat) = (Num.ofZ 0, 1%nat)) \/
   (Num.strict_eq (Num.ofZ 0) (Num.ofZ 0) = true /\
    exists k,
      (k < 1)%nat /\
      (Num.ofZ 4, 2%nat) = (attempt sourceA settings 1 k, (1 + k + 1)%nat) /\
      (forall j, (j < k)%nat ->
                 Num.strict_eq (attempt sourceA settings 1 j) (Num.ofZ 0) = true) /\
      Num.strict_eq (attempt sourceA settings 1 k) (Num.ofZ 0) = false)).
Proof.
  assert (H : pickElementColor sourceA 1 settings (Num.ofZ 0) (Num.ofZ 0) 1
              = Some (Num.ofZ 4, 2%nat)) by (vm_compute; reflexivity).
  split; [exact H|].
  exact (pickElementColor_first_differing sourceA settings
           (Num.ofZ 0) (Num.ofZ 0) 1 1 (Num.ofZ 4, 2%nat) H).
Defined.

Lemma handler_success_composition_witness :
  falsy (address sampleQuery) = false /\
  loadOk imageUrl = inr tt /\
  exists d : Drawing unit,
    drawPattern sourceA 0 (createCanvas unit 400 400) 0 = Some d /\
    exists o ctx,
      handler sampleEncoder sourceA loadOk 0 sampleQuery = Some o /\
      surface o = Some ctx /\
      response o
      = [SetHeader "Content-Type" "image/png"; Send (sampleEncoder ctx)] /\
      consoleErrors o = [] /\
      randomCalls o = drawn d /\
      width ctx = Num.ofZ 400 /\ height ctx = Num.ofZ 400 /\
      calls ctx = flat_map (paintCell settings) (cells d) ++ finishing tt.
Proof.
  split; [reflexivity|]. split; [reflexivity|].
  destruct (drawPattern sourceA 0 (createCanvas unit 400 400) 0) as [d|] eqn:E.
  - exists d. split; [reflexivity|].
    exact (handler_success_composition sampleEncoder sourceA loadOk 0
             sampleQuery d tt eq_refl E eq_refl).
  - vm_compute in E. discriminate E.
Defined.

Lemma generateSeed_dash_collisions_witness :
  JSString.lit "z" <> [] /\
  generateSeed (JSString.lit "x" ++ JSString.lit "-" ++ JSString.lit "y")
    (Some (JSString.lit "z"))
  = generateSeed (JSString.lit "x")
      (Some (JSString.lit "y" ++ JSString.lit "-" ++ JSString.lit "z")) /\
  generateSeed (JSString.lit "x") (Some (JSString.lit "z"))
  = generateSeed (JSString.lit "x" ++ JSString.lit "-" ++ JSString.lit "z") None.
Proof.
  assert (H : JSString.lit "z" <> []) by discriminate.
  split; [exact H|].
  exact (generateSeed_dash_collisions
           (JSString.lit "x") (JSString.lit "y") (JSString.lit "z") H).
Defined.
